(** * JSON with comments: stripping, tokenizing, re-printing, formatting

    A shallow embedding of [json_with_comments.py] (the text pipeline of the
    Sublime Text package).  A Python [str] is a sequence of Unicode code
    points; it is modelled as a list of code points, so that the character
    classes of [str.isspace], [str.splitlines] and the [re] module can be
    written with the tables CPython uses (CPython 3.11, Unicode 14.0). *)

From Stdlib Require Import List NArith Bool Arith Lia Ascii.
From Stdlib Require String.
Import ListNotations String.StringSyntax.
Delimit Scope string_scope with string.

(** ** Python strings *)

Definition char := N.
Definition str := list char.

(** An ASCII literal as a Python string. *)
Definition py (s : String.string) : str :=
  map N_of_ascii (String.list_ascii_of_string s).

Arguments py s%_string.

Definition TAB : char := 9%N.
Definition LF : char := 10%N.
Definition CR : char := 13%N.
Definition SPACE : char := 32%N.
Definition DQUOTE : char := 34%N.
Definition SQUOTE : char := 39%N.
Definition LPAREN : char := 40%N.
Definition RPAREN : char := 41%N.
Definition STAR : char := 42%N.
Definition COMMA : char := 44%N.
Definition SLASH : char := 47%N.
Definition COLON : char := 58%N.
Definition LBRACKET : char := 91%N.
Definition BACKSLASH : char := 92%N.
Definition RBRACKET : char := 93%N.
Definition LBRACE : char := 123%N.
Definition RBRACE : char := 125%N.

Definition between (lo hi c : char) : bool := (lo <=? c)%N && (c <=? hi)%N.

(** [c.isspace()] for a one-character string. *)
Definition isspace (c : char) : bool :=
  between 9%N 13%N c || between 28%N 32%N c || (c =? 133)%N || (c =? 160)%N
  || (c =? 5760)%N || between 8192%N 8202%N c || (c =? 8232)%N
  || (c =? 8233)%N || (c =? 8239)%N || (c =? 8287)%N || (c =? 12288)%N.

(** [x == y] on strings. *)
Fixpoint str_eqb (x y : str) : bool :=
  match x, y with
  | [], [] => true
  | a :: x', b :: y' => (a =? b)%N && str_eqb x' y'
  | _, _ => false
  end.

(** [s.startswith(p)]. *)
Fixpoint startswith (s p : str) {struct p} : bool :=
  match p, s with
  | [], _ => true
  | a :: p', b :: s' => (a =? b)%N && startswith s' p'
  | _ :: _, [] => false
  end.

(** [s.endswith(p)]. *)
Definition endswith (s p : str) : bool := startswith (rev s) (rev p).

(** [x in s] for strings: [x] occurs in [s] as a substring. *)
Fixpoint str_in (x s : str) : bool :=
  startswith s x || match s with [] => false | _ :: s' => str_in x s' end.

(** [c in s] when [c] is one character of a string ([src[i]]). *)
Definition char_in (c : char) (s : str) : bool := existsb (N.eqb c) s.

(** [s.lstrip()], [s.rstrip()], [s.strip()]. *)
Fixpoint lstrip (s : str) : str :=
  match s with
  | [] => []
  | c :: s' => if isspace c then lstrip s' else s
  end.

Definition rstrip (s : str) : str := rev (lstrip (rev s)).

Definition strip (s : str) : str := rstrip (lstrip s).

(** [" " * n]. *)
Definition spaces (n : nat) : str := repeat SPACE n.

(** The longest prefix of [s] whose characters satisfy [p], and the rest:
    the loop [while i < length and p(src[i]): i += 1]. *)
Fixpoint span (p : char -> bool) (s : str) : str * str :=
  match s with
  | [] => ([], [])
  | c :: s' =>
      if p c then let (a, b) := span p s' in (c :: a, b) else ([], s)
  end.

(** [src[i + 1] if i + 1 < length else ""] compared with one character. *)
Definition nxt_is (rest : str) (c : char) : bool :=
  match rest with
  | [] => false
  | n :: _ => (n =? c)%N
  end.

Definition is_quote (c : char) : bool := (c =? SQUOTE)%N || (c =? DQUOTE)%N.

Definition is_eol (c : char) : bool := (c =? LF)%N || (c =? CR)%N.

(** ** [_strip_json_comments] *)

(** The body of the [while i < length] loop, on the text from index [i] on.
    The five flags are the function's local variables; [out_chars] is the
    result, in order. *)
Fixpoint strip_loop (in_string : bool) (string_delim : str)
    (escape in_line_comment in_block_comment : bool) (src : str) : str :=
  match src with
  | [] => []
  | ch :: rest =>
      if in_line_comment then
        if is_eol ch
        then ch :: strip_loop in_string string_delim escape false
                     in_block_comment rest
        else strip_loop in_string string_delim escape true
               in_block_comment rest
      else if in_block_comment then
        match rest with
        | nxt :: rest' =>
            if (ch =? STAR)%N && (nxt =? SLASH)%N
            then strip_loop in_string string_delim escape in_line_comment
                   false rest'
            else strip_loop in_string string_delim escape in_line_comment
                   true rest
        | [] => []
        end
      else if in_string then
        ch :: (if escape
               then strip_loop true string_delim false false false rest
               else if (ch =? BACKSLASH)%N
               then strip_loop true string_delim true false false rest
               else if str_eqb [ch] string_delim
               then strip_loop false string_delim false false false rest
               else strip_loop true string_delim false false false rest)
      else if is_quote ch then
        ch :: strip_loop true [ch] escape false false rest
      else
        match rest with
        | nxt :: rest' =>
            if (ch =? SLASH)%N && (nxt =? SLASH)%N
            then strip_loop false string_delim escape true false rest'
            else if (ch =? SLASH)%N && (nxt =? STAR)%N
            then strip_loop false string_delim escape false true rest'
            else ch :: strip_loop false string_delim escape false false rest
        | [] => [ch]
        end
  end.

Definition _strip_json_comments (src : str) : str :=
  strip_loop false [] false false false src.

(** ** Tokens *)

Inductive token_kind := Kstring | Kliteral | Kpunct | Kcomment | Kws.

Record _Token := Token { kind : token_kind; value : str }.

(** ** [_tokenize_json_with_comments] *)

(** The string loop, entered after the opening quote: the characters
    consumed (the closing quote included when there is one) and the rest. *)
Fixpoint scan_string (delim : char) (escape : bool) (s : str) : str * str :=
  match s with
  | [] => ([], [])
  | c :: s' =>
      if escape then
        let (a, b) := scan_string delim false s' in (c :: a, b)
      else if (c =? BACKSLASH)%N then
        let (a, b) := scan_string delim true s' in (c :: a, b)
      else if (c =? delim)%N then ([c], s')
      else let (a, b) := scan_string delim false s' in (c :: a, b)
  end.

(** The block-comment loop, entered after the opening delimiter:
    [while i < length - 1 and not (src[i] == "*" and src[i + 1] == "/")]
    followed by [if i < length - 1: i += 2]. *)
Fixpoint scan_block (s : str) : str * str :=
  match s with
  | [] => ([], [])
  | c :: s' =>
      match s' with
      | [] => ([], s)
      | d :: s'' =>
          if (c =? STAR)%N && (d =? SLASH)%N then ([c; d], s'')
          else let (a, b) := scan_block s' in (c :: a, b)
      end
  end.

Definition punctuation : str := py "{}[]:,".

(** The literal loop, entered after the first character of the literal. *)
Fixpoint scan_literal (s : str) : str * str :=
  match s with
  | [] => ([], [])
  | c :: s' =>
      if isspace c then ([], s)
      else if char_in c punctuation then ([], s)
      else if (c =? SLASH)%N && (nxt_is s' SLASH || nxt_is s' STAR)
      then ([], s)
      else if is_quote c then ([], s)
      else let (a, b) := scan_literal s' in (c :: a, b)
  end.

(** One round of the outer [while i < length] loop, entered with
    [ch = src[i]] and the text after it: the token appended and the text
    from the new [i] on. *)
Definition next_token (ch : char) (rest : str) : _Token * str :=
  if isspace ch then
    let (ws, r) := span isspace rest in (Token Kws (ch :: ws), r)
  else if is_quote ch then
    let (body, r) := scan_string ch false rest in
    (Token Kstring (ch :: body), r)
  else if (ch =? SLASH)%N && nxt_is rest SLASH then
    let (body, r) := span (fun c => negb (is_eol c)) (tl rest) in
    (Token Kcomment (ch :: SLASH :: body), r)
  else if (ch =? SLASH)%N && nxt_is rest STAR then
    let (body, r) := scan_block (tl rest) in
    (Token Kcomment (ch :: STAR :: body), r)
  else if char_in ch punctuation then (Token Kpunct [ch], rest)
  else
    let (body, r) := scan_literal rest in (Token Kliteral (ch :: body), r).

(** The outer loop on the text from index [i] on.  Every round consumes at
    least one character, so [length src] rounds are enough; [fuel] counts
    the rounds left. *)
Fixpoint tokenize_loop (fuel : nat) (src : str) : list _Token :=
  match fuel, src with
  | O, _ => []
  | _, [] => []
  | S fuel', ch :: rest =>
      let (tok, r) := next_token ch rest in tok :: tokenize_loop fuel' r
  end.

Definition _tokenize_json_with_comments (src : str) : list _Token :=
  tokenize_loop (length src) src.

(** ** [_pretty_print_tokens_with_comments] *)

(** The two local variables the closures share: the list [pieces] (grown by
    [append] at its end) and the integer [indent]. *)
Record printer := Printer { pieces : list str; indent : nat }.

Definition indent_step : nat := 4.

(** The characters of [pieces] in the order the loops
    [for part in reversed(pieces): for c in reversed(part)] visit them. *)
Definition reversed_chars (ps : list str) : str :=
  concat (map (@rev char) (rev ps)).

Definition last_non_space_char (ps : list str) : str :=
  match lstrip (reversed_chars ps) with
  | [] => []
  | c :: _ => [c]
  end.

Definition write (text : str) (st : printer) : printer :=
  {| pieces := pieces st ++ [text]; indent := indent st |}.

Definition write_newline_and_indent (st : printer) : printer :=
  write (spaces (indent st * indent_step)) (write [LF] st).

(** [strip_trailing_whitespace] on the reversed list of pieces (its head is
    [pieces[-1]]); [rstrip part] is [part[: i + 1]] for the index [i] the
    inner loop stops at. *)
Fixpoint strip_trailing_rev (rps : list str) : list str :=
  match rps with
  | [] => []
  | part :: rest =>
      match rstrip part with
      | [] => strip_trailing_rev rest
      | kept =>
          if length kept =? length part then rps else kept :: rest
      end
  end.

Definition strip_trailing_whitespace (st : printer) : printer :=
  {| pieces := rev (strip_trailing_rev (rev (pieces st)));
     indent := indent st |}.

Fixpoint at_line_start_scan (saw_any : bool) (cs : str) : bool :=
  match cs with
  | [] => negb saw_any
  | c :: cs' =>
      if (c =? LF)%N then true
      else if negb (isspace c) then false
      else at_line_start_scan true cs'
  end.

Definition at_line_start (ps : list str) : bool :=
  at_line_start_scan false (reversed_chars ps).

(** The line boundaries of [str.splitlines]. *)
Definition is_linebreak (c : char) : bool :=
  between 10%N 13%N c || between 28%N 30%N c || (c =? 133)%N
  || (c =? 8232)%N || (c =? 8233)%N.

(** [s.splitlines(True)]: the lines of [s], each with its line boundary
    (a carriage return followed by a line feed is one boundary). *)
Fixpoint splitlines (s : str) : list str :=
  match s with
  | [] => []
  | c :: s' =>
      if is_linebreak c then
        match s' with
        | d :: s'' =>
            if (c =? CR)%N && (d =? LF)%N
            then [c; d] :: splitlines s''
            else [c] :: splitlines s'
        | [] => [[c]]
        end
      else
        match splitlines s' with
        | [] => [[c]]
        | l :: ls => (c :: l) :: ls
        end
  end.

(** The loop [for idx, line in enumerate(lines)] of the comment branch. *)
Fixpoint write_lines (first : bool) (lines : list str) (st : printer)
    : printer :=
  match lines with
  | [] => st
  | line :: lines' =>
      let st1 :=
        if first then st else write (spaces (indent st * indent_step)) st in
      write_lines false lines' (write line st1)
  end.

Definition ends_with_eol (s : str) : bool :=
  endswith s [LF] || endswith s [CR].

Definition print_comment (val : str) (st : printer) : printer :=
  let prev_char := last_non_space_char (pieces st) in
  let is_line_comment := startswith (lstrip val) (py "//") in
  let has_newline := char_in LF val || char_in CR val in
  if is_line_comment && negb has_newline
     && negb (str_eqb prev_char [] || str_eqb prev_char [LF])
  then
    write_newline_and_indent
      (write (strip val) (write [SPACE] (strip_trailing_whitespace st)))
  else
    let st1 :=
      if match pieces st with [] => true | _ => false end
         || negb (str_eqb prev_char [LF])
      then write_newline_and_indent st else st in
    let lines := splitlines val in
    let st2 := write_lines true lines st1 in
    if negb (match lines with
             | [] => false
             | _ => ends_with_eol (last lines [])
             end)
    then write [LF] st2 else st2.

Definition print_punct (ch : str) (st : printer) : printer :=
  if str_in ch (py "{[") then
    let prev := last_non_space_char (pieces st) in
    let st1 := if str_eqb prev [COLON] then write [SPACE] st else st in
    let st2 := write ch st1 in
    write_newline_and_indent
      {| pieces := pieces st2; indent := indent st2 + 1 |}
  else if str_in ch (py "}]") then
    let st1 := {| pieces := pieces st; indent := Nat.max (indent st - 1) 0 |} in
    let prev := last_non_space_char (pieces st1) in
    if str_in prev (py "{[") then write ch st1
    else write ch (write_newline_and_indent st1)
  else if str_eqb ch [COMMA] then
    write_newline_and_indent (write [COMMA] st)
  else if str_eqb ch [COLON] then
    write [COLON; SPACE] st
  else st.

Definition print_value (val : str) (st : printer) : printer :=
  let st1 :=
    if negb (at_line_start (pieces st)) then
      let prev := last_non_space_char (pieces st) in
      if negb (str_eqb prev []) && negb (str_in prev (py "{[:,"))
      then write [SPACE] st else st
    else st in
  write val st1.

(** One round of [for tok in tokens]. *)
Definition print_token (st : printer) (tok : _Token) : printer :=
  match kind tok with
  | Kws => st
  | Kcomment => print_comment (value tok) st
  | Kpunct => print_punct (value tok) st
  | Kstring | Kliteral => print_value (value tok) st
  end.

Definition _pretty_print_tokens_with_comments (tokens : list _Token)
    (newline_at_end : bool) : str :=
  let st := fold_left print_token tokens {| pieces := []; indent := 0 |} in
  let result := rstrip (concat (pieces st)) in
  if newline_at_end then result ++ [LF] else result.

(** ** The [re] patterns of [_format_json_with_comments] *)

(** Code points of the digit zero of every decimal-digit script (Unicode
    category Nd); the other nine digits follow each of them. *)
Definition decimal_zeros : list N :=
  [48; 1632; 1776; 1984; 2406; 2534; 2662; 2790; 2918; 3046; 3174; 3302;
   3430; 3558; 3664; 3792; 3872; 4160; 4240; 6112; 6160; 6470; 6608; 6784;
   6800; 6992; 7088; 7232; 7248; 42528; 43216; 43264; 43472; 43504; 43600;
   44016; 65296; 66720; 68912; 69734; 69872; 69942; 70096; 70384; 70736;
   70864; 71248; 71360; 71472; 71904; 72016; 72784; 73040; 73120; 92768;
   92864; 93008; 120782; 120792; 120802; 120812; 120822; 123200; 123632;
   125264; 130032]%N.

(** The value of a decimal digit, [None] for any other character. *)
Definition decimal_value (c : char) : option N :=
  match find (fun z => between z (z + 9)%N c) decimal_zeros with
  | Some z => Some (c - z)%N
  | None => None
  end.

(** The class [\d] of a [str] pattern. *)
Definition is_decimal (c : char) : bool :=
  match decimal_value c with Some _ => true | None => false end.

(** [int(s)] for a string of decimal digits. *)
Definition py_int (s : str) : N :=
  fold_left
    (fun acc c =>
       (10 * acc + match decimal_value c with Some d => d | None => 0 end)%N)
    s 0%N.

(** Whether the pattern character [p] matches [c] under [re.IGNORECASE]:
    a lower-case ASCII letter also matches its capital, and the letter i
    the two dotted and dotless variants U+0130 and U+0131; the patterns'
    other characters match themselves only. *)
Definition ci_match (p c : char) : bool :=
  (c =? p)%N
  || (between 97%N 122%N p && (c =? p - 32)%N)
  || ((p =? 105)%N && ((c =? 304)%N || (c =? 305)%N)).

(** A literal run of pattern characters at the start of [s]: the rest of
    [s] after the match. *)
Fixpoint match_literal (pat s : str) : option str :=
  match pat, s with
  | [], _ => Some s
  | p :: pat', c :: s' => if ci_match p c then match_literal pat' s' else None
  | _ :: _, [] => None
  end.

(** [cls+] at the start of [s] (greedy): the run matched and the rest.  In
    both patterns what follows a run cannot start with a character of the
    run's class, so the longest run is the only one that can match. *)
Definition match_plus (cls : char -> bool) (s : str) : option (str * str) :=
  match span cls s with
  | ([], _) => None
  | (run, rest) => Some (run, rest)
  end.

(** [line\s+(\d+)\s+column\s+(\d+)] anchored at the start of [s]: the two
    groups. *)
Definition match_line_column (s : str) : option (str * str) :=
  match match_literal (py "line") s with
  | None => None
  | Some s1 =>
  match match_plus isspace s1 with
  | None => None
  | Some (_, s2) =>
  match match_plus is_decimal s2 with
  | None => None
  | Some (g1, s3) =>
  match match_plus isspace s3 with
  | None => None
  | Some (_, s4) =>
  match match_literal (py "column") s4 with
  | None => None
  | Some s5 =>
  match match_plus isspace s5 with
  | None => None
  | Some (_, s6) =>
  match match_plus is_decimal s6 with
  | None => None
  | Some (g2, _) => Some (g1, g2)
  end end end end end end end.

(** [\(char\s+(\d+)\)] anchored at the start of [s]: the group. *)
Definition match_char (s : str) : option str :=
  match match_literal (py "(char") s with
  | None => None
  | Some s1 =>
  match match_plus isspace s1 with
  | None => None
  | Some (_, s2) =>
  match match_plus is_decimal s2 with
  | None => None
  | Some (g1, s3) =>
  match match_literal [RPAREN] s3 with
  | None => None
  | Some _ => Some g1
  end end end end.

(** [re.search]: the match at the leftmost position that has one. *)
Fixpoint re_search {A : Type} (anchored : str -> option A) (s : str)
    : option A :=
  match anchored s with
  | Some m => Some m
  | None =>
      match s with
      | [] => None
      | _ :: s' => re_search anchored s'
      end
  end.

(** ** [_format_json_with_comments] *)

(** What [json.loads(cleaned)] does: it returns (the value is bound to
    [data] and never read), raises [ValueError], or raises another
    [Exception]; the strings are [str(exc)]. *)
Inductive loads_outcome :=
| Loaded
| RaisedValueError (msg : str)
| RaisedException (msg : str).

(** The dictionary [error_info]; [None] is Python's [None]. *)
Record error_info := ErrorInfo {
  message : str;
  lineno : option N;
  colno : option N;
  pos : option N
}.

Section Formatter.

(** The validator, [json.loads] of the host's Python. *)
Variable json_loads : str -> loads_outcome.

Definition value_error_info (error_msg : str) : error_info :=
  let m1 := re_search match_line_column error_msg in
  let m2 := re_search match_char error_msg in
  {| message := error_msg;
     lineno := match m1 with
               | Some (g1, _) => Some (py_int g1)
               | None => None
               end;
     colno := match m1 with
              | Some (_, g2) => Some (py_int g2)
              | None => None
              end;
     pos := match m2 with
            | Some g1 => Some (py_int g1)
            | None => None
            end |}.

Definition _format_json_with_comments (raw : str)
    : str * option error_info :=
  let cleaned := _strip_json_comments raw in
  match json_loads cleaned with
  | RaisedValueError error_msg => (raw, Some (value_error_info error_msg))
  | RaisedException msg =>
      (raw,
       Some {| message := msg; lineno := None; colno := None;
               pos := None |})
  | Loaded =>
      let tokens := _tokenize_json_with_comments raw in
      let pretty :=
        _pretty_print_tokens_with_comments tokens (endswith raw [LF]) in
      (pretty, None)
  end.

End Formatter.

(** ** [_format_json_with_comments] with its [try] statement

    The model above takes three outcomes of [json.loads] and a total
    [int].  This one models what the [try] statement of lines 367 to 402
    does with an exception of any class, and an [int] that can raise, so
    that what is caught and what is not can be stated. *)

Module Exceptions.

(** The classes that the two [except] clauses tell apart: [ValueError]
    with its subclasses (among them [json.JSONDecodeError]), the other
    subclasses of [Exception], and the exceptions that are not instances
    of [Exception] ([KeyboardInterrupt], [SystemExit],
    [GeneratorExit]). *)
Inductive exception_class :=
| ValueError
| OtherException
| NotException.

(** An exception: its class and [str(exc)]. *)
Record exception := Exc {
  class_of : exception_class;
  str_of : str
}.

(** How a call ends. *)
Inductive outcome (A : Type) :=
| Returns (a : A)
| Raises (exc : exception).

Arguments Returns {A} a.
Arguments Raises {A} exc.

(** Two statements in sequence: the second runs if the first returns. *)
Definition bind {A B : Type} (m : outcome A) (k : A -> outcome B)
    : outcome B :=
  match m with
  | Returns a => k a
  | Raises exc => Raises exc
  end.

(** [int] looks at its limit only for a text of more digits than
    this. *)
Definition max_str_digits_threshold : nat := 640.

Section Runtime.

(** [sys.get_int_max_str_digits()]: 4300 unless configured, in CPython
    3.11 and later (and in the last releases of 3.7 to 3.10); 0 stands for
    no limit, which is what the versions before have, the 3.3 and 3.8 of
    Sublime Text among them. *)
Variable max_str_digits : nat.

(** The message of the [ValueError] that [int] raises for a text of that
    many digits; its wording differs between versions. *)
Variable int_limit_message : nat -> str.

(** [json.loads(cleaned)]: it returns (the value is never read) or
    raises. *)
Variable json_loads : str -> outcome unit.

(** [int(s)] for a run of decimal digits [s]: a text of more digits than
    the threshold and than a limit that is not 0 raises [ValueError]. *)
Definition int (s : str) : outcome N :=
  if (max_str_digits_threshold <? length s)
     && (0 <? max_str_digits) && (max_str_digits <? length s)
  then
    Raises
      {| class_of := ValueError;
         str_of := int_limit_message (length s) |}
  else Returns (py_int s).

(** The body of [except ValueError as exc], lines 373 to 393, entered
    with [error_msg = str(exc)]: an exception raised here is not caught by
    the clauses of the same [try]. *)
Definition value_error_handler (raw error_msg : str)
    : outcome (str * option error_info) :=
  bind
    (match re_search match_line_column error_msg with
     | Some (g1, g2) =>
         bind (int g1) (fun line =>
         bind (int g2) (fun column =>
         Returns (Some line, Some column)))
     | None => Returns (None, None)
     end)
    (fun line_column =>
  bind
    (match re_search match_char error_msg with
     | Some g1 => bind (int g1) (fun offset => Returns (Some offset))
     | None => Returns None
     end)
    (fun offset =>
  Returns
    (raw,
     Some {| message := error_msg;
             lineno := fst line_column;
             colno := snd line_column;
             pos := offset |}))).

Definition _format_json_with_comments (raw : str)
    : outcome (str * option error_info) :=
  let cleaned := _strip_json_comments raw in
  match json_loads cleaned with
  | Raises exc =>
      match class_of exc with
      | ValueError => value_error_handler raw (str_of exc)
      | OtherException =>
          Returns
            (raw,
             Some {| message := str_of exc; lineno := None;
                     colno := None; pos := None |})
      | NotException => Raises exc
      end
  | Returns _ =>
      let tokens := _tokenize_json_with_comments raw in
      let pretty :=
        _pretty_print_tokens_with_comments tokens (endswith raw [LF]) in
      Returns (pretty, None)
  end.

End Runtime.

End Exceptions.

(** ** [JsonWithCommentsPrettyCommand.run]: its computations on text *)

Definition AMPERSAND : char := 38%N.
Definition LESS : char := 60%N.
Definition GREATER : char := 62%N.

(** [s.replace(old, new)] for a one-character [old]. *)
Definition replace_char (old : char) (new s : str) : str :=
  flat_map (fun c => if (c =? old)%N then new else [c]) s.

(** The text put into the phantom:
    [error_message.replace('<', '&lt;').replace('>', '&gt;')
     .replace('&', '&amp;')]. *)
Definition phantom_text (error_message : str) : str :=
  replace_char AMPERSAND (py "&amp;")
    (replace_char GREATER (py "&gt;")
       (replace_char LESS (py "&lt;") error_message)).

(** The test of the loop that counts comment lines:
    [stripped.startswith("//") or "/*" in stripped]. *)
Definition is_comment_line (orig_line : str) : bool :=
  let stripped := strip orig_line in
  startswith stripped (py "//") || str_in (py "/*") stripped.

(** The line shown for an error the validator reports at line [line_num]
    of the stripped text: [original_line_num] at the end of the block
    that maps the line back to the original text. *)
Definition original_line_num (original : str) (line_num : N) : N :=
  let cleaned := _strip_json_comments original in
  let cleaned_lines := splitlines cleaned in
  let original_lines := splitlines original in
  if (line_num <=? N.of_nat (length cleaned_lines))%N then
    let comment_line_count :=
      N.of_nat
        (length
           (filter is_comment_line
              (firstn (N.to_nat line_num) original_lines))) in
    let mapped := (line_num + comment_line_count)%N in
    if (N.of_nat (length original_lines) <? mapped)%N
    then line_num else mapped
  else line_num.

(** * The vocabulary of the properties *)

(** ** Texts and tokens *)

(** A scanning loop returns a prefix of its input and the rest of it. *)
Definition splits (s : str) (r : str * str) : Prop :=
  fst r ++ snd r = s /\ length (snd r) <= length s.

(** The texts of the tokens, one after the other. *)
Definition token_text (tokens : list _Token) : str :=
  concat (map value tokens).

(** The text between the delimiters of a closed string: ordinary
    characters (anything but a backslash and the delimiter, so braces,
    brackets, colons, commas, slashes and stars too) and escape pairs (a
    backslash and the character after it, whatever it is). *)
Inductive string_body (delim : char) : str -> Prop :=
| body_nil : string_body delim []
| body_char c body :
    c <> BACKSLASH -> c <> delim ->
    string_body delim body -> string_body delim (c :: body)
| body_escape c body :
    string_body delim body -> string_body delim (BACKSLASH :: c :: body).

(** The last character of [s] is whitespace. *)
Definition ends_in_space (s : str) : bool :=
  match rev s with
  | [] => false
  | c :: _ => isspace c
  end.

(** ** A validator for the examples *)

(** The message of [json.loads] for the text [{]. *)
Definition property_name_message : str :=
  py "Expecting property name enclosed in double quotes"
  ++ py ": line 1 column 2 (char 1)".

(** A message for data after the value that gives the range of the data:
    the form of the [json] module of Python 3.3 and 3.4 (the runtime of
    Sublime Text 3, which the source is written for), there for the text
    [{}}].  Python 3.5 and later give the start of the data only, as in
    the table below. *)
Definition extra_data_message : str :=
  py "Extra data: line 1 column 3 - line 1 column 4 (char 2 - 3)".

(** A validator that raises [ValueError] with the message [msg] on every
    text. *)
Definition rejects_with (msg : str) (cleaned : str) : loads_outcome :=
  RaisedValueError msg.

(** What [json.loads] of Python 3.5 and later does on the
    comment-stripped texts of the examples below. *)
Definition loads_table : list (str * loads_outcome) :=
  [ (py "{}", Loaded);
    (py "{}" ++ [LF], Loaded);
    (py "{}" ++ [CR], Loaded);
    (py "12", Loaded);
    (py "[1]", Loaded);
    (py "[" ++ [LF] ++ py "    " ++ [LF] ++ py "    " ++ [LF] ++ py "1"
     ++ [LF] ++ py "]", Loaded);
    (py "1" ++ [LF; LF] ++ py "2",
     RaisedValueError (py "Extra data: line 3 column 1 (char 3)"));
    (py "{", RaisedValueError property_name_message);
    (py "{}}",
     RaisedValueError (py "Extra data: line 1 column 3 (char 2)")) ].

(** A validator for the examples: [json.loads] on the texts of the table;
    on any other text it raises an exception that says so. *)
Definition example_loads (cleaned : str) : loads_outcome :=
  match find (fun entry => str_eqb cleaned (fst entry)) loads_table with
  | Some entry => snd entry
  | None => RaisedException (py "not a text of the examples")
  end.

(** ** The two patterns, as languages *)

(** [w] is the literal [pat] up to the case folding of [re.IGNORECASE]. *)
Definition ci_word (pat w : str) : Prop :=
  Forall2 (fun p c => ci_match p c = true) pat w.

(** [w] is a non-empty run of characters of the class [cls]. *)
Definition run (cls : char -> bool) (w : str) : Prop :=
  w <> [] /\ forallb cls w = true.

(** [x] is a text of [line\s+(\d+)\s+column\s+(\d+)] with groups [g1] and
    [g2]. *)
Definition line_column_text (x g1 g2 : str) : Prop :=
  exists l w1 w2 c w3,
    x = l ++ w1 ++ g1 ++ w2 ++ c ++ w3 ++ g2
    /\ ci_word (py "line") l /\ run isspace w1 /\ run is_decimal g1
    /\ run isspace w2 /\ ci_word (py "column") c /\ run isspace w3
    /\ run is_decimal g2.

(** [x] is a text of [\(char\s+(\d+)\)] with group [g]. *)
Definition char_text (x g : str) : Prop :=
  exists o w,
    x = o ++ w ++ g ++ [RPAREN]
    /\ ci_word (py "(char") o /\ run isspace w /\ run is_decimal g.

(** Some substring of [msg] is a text of the first pattern, with these
    groups. *)
Definition has_line_column (msg g1 g2 : str) : Prop :=
  exists pre x post, msg = pre ++ x ++ post /\ line_column_text x g1 g2.

(** Some substring of [msg] is a text of the second pattern, with this
    group. *)
Definition has_char (msg g : str) : Prop :=
  exists pre x post, msg = pre ++ x ++ post /\ char_text x g.

(** The text after a greedy run must not go on with the run's class. *)
Definition stops (cls : char -> bool) (r : str) : Prop :=
  match r with
  | [] => True
  | c :: _ => cls c = false
  end.

(** The number that a run of decimal digits writes: every digit counts
    for its value times the power of ten of its place, the first digit
    in the highest place. *)
Fixpoint digits_number (g : str) : N :=
  match g with
  | [] => 0%N
  | c :: g' =>
      (match decimal_value c with Some d => d | None => 0 end
       * 10 ^ N.of_nat (length g') + digits_number g')%N
  end.

(** The first occurrence of the first pattern in [msg], with its groups:
    a text of the pattern stands right after [pre], its last group is the
    whole run of digits there (no digit follows it), and no text of the
    pattern stands after a shorter [pre]. *)
Definition first_line_column (msg g1 g2 : str) : Prop :=
  exists pre x post,
    msg = pre ++ x ++ post
    /\ line_column_text x g1 g2
    /\ stops is_decimal post
    /\ forall pre' x' post' h1 h2,
         msg = pre' ++ x' ++ post' -> line_column_text x' h1 h2 ->
         length pre <= length pre'.

(** The first occurrence of the second pattern in [msg], with its
    group. *)
Definition first_char (msg g : str) : Prop :=
  exists pre x post,
    msg = pre ++ x ++ post
    /\ char_text x g
    /\ forall pre' x' post' h,
         msg = pre' ++ x' ++ post' -> char_text x' h ->
         length pre <= length pre'.

(** What the position fields of an [error_info] built from [msg] are.
    When [msg] has an occurrence of the first pattern, it has a first one,
    and line and column are the numbers that the two groups of the first
    occurrence write, the groups being the whole runs of digits; when it
    has none, they are [None].  The same for the offset and the second
    pattern. *)
Definition positions_extracted (msg : str) (e : error_info) : Prop :=
  ((exists g1 g2, has_line_column msg g1 g2) ->
   exists g1 g2, first_line_column msg g1 g2)
  /\ (forall g1 g2,
        first_line_column msg g1 g2 ->
        lineno e = Some (digits_number g1)
        /\ colno e = Some (digits_number g2))
  /\ ((forall g1 g2, ~ has_line_column msg g1 g2) ->
      lineno e = None /\ colno e = None)
  /\ ((exists g, has_char msg g) -> exists g, first_char msg g)
  /\ (forall g, first_char msg g -> pos e = Some (digits_number g))
  /\ ((forall g, ~ has_char msg g) -> pos e = None).

(** The three outcomes of the first model, as outcomes of a call. *)
Definition as_outcome (o : loads_outcome) : Exceptions.outcome unit :=
  match o with
  | Loaded => Exceptions.Returns tt
  | RaisedValueError msg =>
      Exceptions.Raises (Exceptions.Exc Exceptions.ValueError msg)
  | RaisedException msg =>
      Exceptions.Raises (Exceptions.Exc Exceptions.OtherException msg)
  end.

(** [int] takes every run of digits of [msg]: there is no limit, or no
    run of digits in [msg] is longer than the limit. *)
Definition digits_within (limit : nat) (msg : str) : Prop :=
  limit = 0
  \/ forall pre g post,
       msg = pre ++ g ++ post -> forallb is_decimal g = true ->
       length g <= limit.

(** One of the ten ASCII digits. *)
Definition ascii_digit (c : char) : bool := between 48%N 57%N c.

(** ** A comment of two lines *)

(** An array with a block comment of two lines, and what formatting it
    once and twice gives. *)
Definition two_line_comment : str := py "[/*a" ++ [LF] ++ py "b*/1]".

Definition formatted_once : str :=
  py "[" ++ [LF] ++ py "    " ++ [LF] ++ py "    /*a" ++ [LF]
  ++ py "    b*/" ++ [LF] ++ py "1" ++ [LF] ++ py "]".

Definition formatted_twice : str :=
  py "[" ++ [LF] ++ py "    " ++ [LF] ++ py "    /*a" ++ [LF]
  ++ py "        b*/" ++ [LF] ++ py "1" ++ [LF] ++ py "]".

(** ** Shapes of tokens *)

(** A character that can stand inside a literal after its first
    character: no whitespace, no structural punctuation, no quote. *)
Definition literal_char (c : char) : bool :=
  negb (isspace c || char_in c punctuation || is_quote c).

(** What the text of a token of each kind looks like. *)
Definition token_shape (t : _Token) : bool :=
  match kind t, value t with
  | _, [] => false
  | Kws, v => forallb isspace v
  | Kpunct, [c] => char_in c punctuation
  | Kpunct, _ => false
  | Kstring, d :: _ => is_quote d
  | Kcomment, v =>
      (startswith v (py "//") && forallb (fun c => negb (is_eol c)) v)
      || startswith v (py "/*")
  | Kliteral, v => forallb literal_char v
  end.

(** No two whitespace tokens and no two literal tokens are adjacent. *)
Fixpoint runs_maximal (tokens : list _Token) : bool :=
  match tokens with
  | [] => true
  | t :: tokens' =>
      match kind t, tokens' with
      | Kws, {| kind := Kws |} :: _ => false
      | Kliteral, {| kind := Kliteral |} :: _ => false
      | _, _ => runs_maximal tokens'
      end
  end.

(** The characters of [s] that are not whitespace, in order. *)
Definition nonspace (s : str) : str :=
  filter (fun c => negb (isspace c)) s.

(** The tokens that are not whitespace. *)
Definition without_ws (tokens : list _Token) : list _Token :=
  filter (fun t => match kind t with Kws => false | _ => true end) tokens.

(** The tokens that are not comments. *)
Definition without_comments (tokens : list _Token) : list _Token :=
  filter (fun t => match kind t with Kcomment => false | _ => true end)
    tokens.

(** The text the printer has written so far. *)
Definition buffer (st : printer) : str := concat (pieces st).

(** ** States of the stripper *)

(** The stripper outside strings and comments, in a line comment, in a
    block comment, and in a string (with its [escape] flag). *)
Definition strip_normal (sd : str) (s : str) : str :=
  strip_loop false sd false false false s.

Definition strip_line (sd : str) (s : str) : str :=
  strip_loop false sd false true false s.

Definition strip_block (sd : str) (s : str) : str :=
  strip_loop false sd false false true s.

Definition strip_string (sd : str) (escape : bool) (s : str) : str :=
  strip_loop true sd escape false false s.

(** A comment token that is complete: a line comment, or a block comment
    that holds its closing delimiter after the opening one. *)
Definition comment_closed (t : _Token) : bool :=
  match kind t with
  | Kcomment =>
      startswith (value t) (py "//") || str_in (py "*/") (skipn 2 (value t))
  | _ => true
  end.

(** ** The shape of the validator's messages *)

(** The form of a message of [json]'s decoder, as the comment in the
    code gives it: the description, a colon, and
    [line X column Y (char Z)]. *)
Definition standard_message (text line column offset : str) : str :=
  text ++ py ": line " ++ line ++ py " column " ++ column
  ++ py " (char " ++ offset ++ py ")".

(** A character of a description: no decimal digit and no opening
    parenthesis. *)
Definition description_char (c : char) : bool :=
  negb (is_decimal c) && negb (c =? LPAREN)%N.

(** ** The text of the phantom *)

(** What one character of the error message becomes in the phantom. *)
Definition escape_image (c : char) : str :=
  if (c =? LESS)%N then py "&amp;lt;"
  else if (c =? GREATER)%N then py "&amp;gt;"
  else if (c =? AMPERSAND)%N then py "&amp;"
  else [c].

(** ** The layout of the tokens *)

(** The text of a token is not empty and does not end with whitespace. *)
Definition ends_solid (t : _Token) : bool :=
  match rev (value t) with
  | [] => false
  | c :: _ => negb (isspace c)
  end.

(** A string token does not end with whitespace; one that is not closed
    does when whitespace ends the input. *)
Definition string_ends_solid (t : _Token) : bool :=
  match kind t with
  | Kstring => ends_solid t
  | _ => true
  end.

(** A token that is a comment or does not end with whitespace. *)
Definition firm (t : _Token) : bool :=
  match kind t with
  | Kcomment => true
  | _ => ends_solid t
  end.

(** How a token appears in a layout: a comment with its whitespace
    changed, any other token as it is. *)
Definition shown (t : _Token) (image : str) : Prop :=
  match kind t with
  | Kcomment => nonspace image = nonspace (value t)
  | _ => image = value t
  end.

(** [text] is the tokens in their order, each one shown, with whitespace
    and nothing else before, between and after them. *)
Fixpoint laid_out (tokens : list _Token) (text : str) : Prop :=
  match tokens with
  | [] => forallb isspace text = true
  | t :: tokens' =>
      exists gap image rest,
        text = gap ++ image ++ rest
        /\ forallb isspace gap = true
        /\ shown t image
        /\ laid_out tokens' rest
  end.

(** ** Reading the tokens *)

(** The kind of the token of one round, read off the first characters. *)
Definition round_kind (ch : char) (rest : str) : token_kind :=
  if isspace ch then Kws
  else if is_quote ch then Kstring
  else if (ch =? SLASH)%N && (nxt_is rest SLASH || nxt_is rest STAR)
  then Kcomment
  else if char_in ch punctuation then Kpunct
  else Kliteral.

(** The kind of the first token of a text, if it has one. *)
Definition first_kind (tokens : list _Token) : option token_kind :=
  match tokens with
  | [] => None
  | t :: _ => Some (kind t)
  end.

(** What the stripper keeps of a token. *)
Definition kept_text (t : _Token) : str :=
  match kind t with
  | Kcomment => []
  | _ => value t
  end.

(** * Properties *)

Arguments isspace : simpl never.
Arguments is_quote : simpl never.
Arguments is_eol : simpl never.
Arguments char_in : simpl never.
Arguments nxt_is : simpl never.

(** ** The inner loops consume a prefix *)

Create HintDb scan.

Lemma splits_cons c s r :
  splits s r -> splits (c :: s) (c :: fst r, snd r).
Proof.
  intros [H1 H2]; split; simpl; [now rewrite H1 | lia].
Qed.

Lemma splits_stop s : splits s ([], s).
Proof. split; simpl; [reflexivity | lia]. Qed.

#[local] Hint Resolve splits_cons splits_stop : scan.

Ltac scan_step IH :=
  match goal with
  | |- context [let (_, _) := ?f in _] =>
      let H := fresh in
      assert (H := IH); destruct f; apply (splits_cons _ _ _ H)
  end.

Lemma span_splits p s : splits s (span p s).
Proof.
  induction s as [|c s IH]; simpl; auto with scan.
  destruct (p c); auto with scan. scan_step IH.
Qed.

Lemma scan_string_splits delim s : forall escape,
  splits s (scan_string delim escape s).
Proof.
  induction s as [|c s IH]; intros escape; simpl; auto with scan.
  destruct escape; [scan_step (IH false)|].
  destruct (c =? BACKSLASH)%N; [scan_step (IH true)|].
  destruct (c =? delim)%N; [|scan_step (IH false)].
  split; simpl; [reflexivity | lia].
Qed.

Lemma scan_block_splits s : splits s (scan_block s).
Proof.
  induction s as [|c s IH]; simpl; auto with scan.
  destruct s as [|d s'']; auto with scan.
  destruct ((c =? STAR)%N && (d =? SLASH)%N); [|scan_step IH].
  split; simpl; [reflexivity | lia].
Qed.

Lemma scan_literal_splits s : splits s (scan_literal s).
Proof.
  induction s as [|c s IH]; simpl; auto with scan.
  destruct (isspace c); auto with scan.
  destruct (char_in c punctuation); auto with scan.
  destruct ((c =? SLASH)%N && (nxt_is s SLASH || nxt_is s STAR));
    auto with scan.
  destruct (is_quote c); auto with scan. scan_step IH.
Qed.

(** ** Lossless tokenization *)

Lemma nxt_is_cons rest c :
  nxt_is rest c = true -> rest = c :: tl rest.
Proof.
  destruct rest as [|n rest']; simpl; [discriminate|].
  unfold nxt_is. now intros ->%N.eqb_eq.
Qed.

(** A round of the tokenizer appends a token whose text is a non-empty
    prefix of the text it was entered with. *)
Lemma next_token_splits ch rest :
  value (fst (next_token ch rest)) ++ snd (next_token ch rest) = ch :: rest
  /\ length (snd (next_token ch rest)) <= length rest.
Proof.
  unfold next_token.
  assert (Hemit : forall k (r : str * str),
             splits rest r ->
             value (fst (let (body, r') := r in (Token k (ch :: body), r')))
             ++ snd (let (body, r') := r in (Token k (ch :: body), r'))
             = ch :: rest
             /\ length (snd (let (body, r') := r in
                             (Token k (ch :: body), r'))) <= length rest).
  { intros k [body r'] [H1 H2]; simpl in *. now rewrite H1. }
  assert (Hcomment : forall c (r : str * str),
             nxt_is rest c = true -> splits (tl rest) r ->
             value (fst (let (body, r') := r in
                         (Token Kcomment (ch :: c :: body), r')))
             ++ snd (let (body, r') := r in
                     (Token Kcomment (ch :: c :: body), r'))
             = ch :: rest
             /\ length (snd (let (body, r') := r in
                             (Token Kcomment (ch :: c :: body), r')))
                <= length rest).
  { intros c [body r'] Hc [H1 H2]; simpl in *.
    apply nxt_is_cons in Hc. destruct rest as [|n rest']; [discriminate|].
    simpl in *. injection Hc as ->. rewrite H1. split; [easy|lia]. }
  destruct (isspace ch); [apply Hemit, span_splits|].
  destruct (is_quote ch); [apply Hemit, scan_string_splits|].
  destruct (ch =? SLASH)%N; simpl.
  - destruct (nxt_is rest SLASH) eqn:E1;
      [apply Hcomment; [exact E1 | apply span_splits]|].
    destruct (nxt_is rest STAR) eqn:E2;
      [apply Hcomment; [exact E2 | apply scan_block_splits]|].
    destruct (char_in ch punctuation);
      [simpl; split; [easy|lia] | apply Hemit, scan_literal_splits].
  - destruct (char_in ch punctuation);
      [simpl; split; [easy|lia] | apply Hemit, scan_literal_splits].
Qed.

Lemma tokenize_loop_text : forall fuel src,
  length src <= fuel -> token_text (tokenize_loop fuel src) = src.
Proof.
  unfold token_text.
  induction fuel as [|fuel IH]; intros [|ch rest] Hlen; simpl in *;
    try reflexivity; try lia.
  destruct (next_token_splits ch rest) as [H1 H2].
  destruct (next_token ch rest) as [tok r]; simpl in *.
  rewrite IH by lia. exact H1.
Qed.

(** More fuel than the length of the text changes nothing. *)
Lemma tokenize_loop_enough : forall fuel1 fuel2 src,
  length src <= fuel1 -> length src <= fuel2 ->
  tokenize_loop fuel1 src = tokenize_loop fuel2 src.
Proof.
  induction fuel1 as [|fuel1 IH]; intros [|fuel2] [|ch rest] H1 H2;
    simpl in *; try reflexivity; try lia.
  destruct (next_token_splits ch rest) as [_ Hr].
  destruct (next_token ch rest) as [tok r]; simpl in *.
  f_equal. apply IH; lia.
Qed.

Lemma tokenize_loop_fuel fuel src :
  length src <= fuel ->
  tokenize_loop fuel src = _tokenize_json_with_comments src.
Proof.
  intros H. unfold _tokenize_json_with_comments.
  apply tokenize_loop_enough; lia.
Qed.

(** The tokenizer, one round at a time. *)
Lemma tokenize_cons ch rest :
  _tokenize_json_with_comments (ch :: rest)
  = fst (next_token ch rest)
    :: _tokenize_json_with_comments (snd (next_token ch rest)).
Proof.
  unfold _tokenize_json_with_comments at 1. simpl.
  destruct (next_token_splits ch rest) as [_ H2].
  destruct (next_token ch rest) as [tok r]; simpl in *.
  f_equal. now apply tokenize_loop_fuel.
Qed.

(** C2. Concatenating the text of the tokens of any input, in order, gives
    the input back: the tokenizer loses and adds no character, whether or
    not strings and block comments are terminated. *)
Theorem tokenize_lossless (src : str) :
  token_text (_tokenize_json_with_comments src) = src.
Proof.
  unfold _tokenize_json_with_comments. now apply tokenize_loop_text.
Qed.

(** ** Strings are opaque *)

Lemma is_quote_not_space delim : is_quote delim = true -> isspace delim = false.
Proof.
  unfold is_quote. intros [->%N.eqb_eq | ->%N.eqb_eq]%orb_prop; reflexivity.
Qed.

Lemma is_quote_not_backslash delim :
  is_quote delim = true -> delim <> BACKSLASH.
Proof.
  unfold is_quote.
  intros [->%N.eqb_eq | ->%N.eqb_eq]%orb_prop; discriminate.
Qed.

(** The tokenizer's string loop runs through a body and stops after the
    delimiter that follows it. *)
Lemma scan_string_body delim body rest :
  delim <> BACKSLASH -> string_body delim body ->
  scan_string delim false (body ++ delim :: rest) = (body ++ [delim], rest).
Proof.
  intros Hd Hb. induction Hb as [|c body Hc1 Hc2 Hb IH|c body Hb IH]; simpl.
  - apply N.eqb_neq in Hd. rewrite Hd, N.eqb_refl. reflexivity.
  - apply N.eqb_neq in Hc1, Hc2. rewrite Hc1, Hc2, IH. reflexivity.
  - rewrite IH. reflexivity.
Qed.

(** The stripper, inside a string, copies a body and the delimiter that
    follows it and is then outside the string. *)
Lemma strip_loop_body delim body rest :
  delim <> BACKSLASH -> string_body delim body ->
  strip_loop true [delim] false false false (body ++ delim :: rest)
  = body ++ delim :: strip_loop false [delim] false false false rest.
Proof.
  intros Hd Hb. induction Hb as [|c body Hc1 Hc2 Hb IH|c body Hb IH]; simpl.
  - apply N.eqb_neq in Hd. rewrite Hd, N.eqb_refl. reflexivity.
  - apply N.eqb_neq in Hc1, Hc2. rewrite Hc1, Hc2, IH. reflexivity.
  - rewrite IH. reflexivity.
Qed.

(** Outside a string the stripper never reads [string_delim]. *)
Lemma strip_loop_delim_unread : forall n src, length src <= n ->
  forall sd sd' escape lc bc,
    strip_loop false sd escape lc bc src
    = strip_loop false sd' escape lc bc src.
Proof.
  induction n as [|n IH]; intros [|ch rest] Hlen sd sd' escape lc bc;
    simpl in *; try reflexivity; try lia.
  assert (Hrest : length rest <= n) by lia.
  destruct lc.
  { destruct (is_eol ch); [f_equal|]; now apply IH. }
  destruct bc.
  { destruct rest as [|nxt rest']; [reflexivity|].
    destruct ((ch =? STAR)%N && (nxt =? SLASH)%N);
      apply IH; simpl in *; lia. }
  destruct (is_quote ch); [reflexivity|].
  destruct rest as [|nxt rest']; [reflexivity|].
  destruct ((ch =? SLASH)%N && (nxt =? SLASH)%N);
    [apply IH; simpl in *; lia|].
  destruct ((ch =? SLASH)%N && (nxt =? STAR)%N);
    [apply IH; simpl in *; lia|].
  f_equal. now apply IH.
Qed.

(** C8. A quoted string is opaque: whatever stands between its delimiters
    -- braces, brackets, colons, commas, the comment openers // and /*,
    escaped quotes -- the tokenizer makes one string token of the
    delimiters and the body and goes on after the closing delimiter, and
    the stripper copies the delimiters and the body unchanged and goes on
    after the closing delimiter. *)
Theorem string_opacity (delim : char) (body rest : str) :
  is_quote delim = true ->
  string_body delim body ->
  _tokenize_json_with_comments (delim :: body ++ delim :: rest)
  = Token Kstring (delim :: body ++ [delim])
    :: _tokenize_json_with_comments rest
  /\ _strip_json_comments (delim :: body ++ delim :: rest)
     = delim :: body ++ delim :: _strip_json_comments rest.
Proof.
  intros Hq Hb. pose proof (is_quote_not_backslash _ Hq) as Hd. split.
  - rewrite tokenize_cons. unfold next_token.
    rewrite (is_quote_not_space _ Hq), Hq, (scan_string_body _ _ _ Hd Hb).
    reflexivity.
  - unfold _strip_json_comments. simpl. rewrite Hq.
    rewrite (strip_loop_body _ _ _ Hd Hb).
    now rewrite (strip_loop_delim_unread (length rest) rest (le_n _)
                   [delim] []).
Qed.

(** The string ['{a}[b]:,//x/*y*/\'z'] before [:1]: its body holds every
    structural character, both comment openers and an escaped quote. *)
Lemma string_opacity_witness :
  _tokenize_json_with_comments
    (SQUOTE :: (py "{a}[b]:,//x/*y*/\'z") ++ SQUOTE :: py ":1")
  = Token Kstring (SQUOTE :: py "{a}[b]:,//x/*y*/\'z" ++ [SQUOTE])
    :: _tokenize_json_with_comments (py ":1")
  /\ _strip_json_comments
       (SQUOTE :: (py "{a}[b]:,//x/*y*/\'z") ++ SQUOTE :: py ":1")
     = SQUOTE :: py "{a}[b]:,//x/*y*/\'z"
       ++ SQUOTE :: _strip_json_comments (py ":1").
Proof.
  apply (string_opacity SQUOTE (py "{a}[b]:,//x/*y*/\'z") (py ":1")).
  - reflexivity.
  - cbv [py String.list_ascii_of_string map].
    repeat first
      [ apply body_nil
      | apply body_escape
      | apply body_char; [discriminate | discriminate |] ].
Defined.

(** ** Validation failures *)

Section FormatterFacts.

Variable json_loads : str -> loads_outcome.

Abbreviation format := (_format_json_with_comments json_loads).

(** The three ways out of [_format_json_with_comments]. *)
Lemma format_cases raw :
  (json_loads (_strip_json_comments raw) = Loaded
   /\ format raw
      = (_pretty_print_tokens_with_comments
           (_tokenize_json_with_comments raw) (endswith raw [LF]), None))
  \/ (exists msg,
        json_loads (_strip_json_comments raw) = RaisedValueError msg
        /\ format raw = (raw, Some (value_error_info msg)))
  \/ (exists msg,
        json_loads (_strip_json_comments raw) = RaisedException msg
        /\ format raw = (raw, Some (ErrorInfo msg None None None))).
Proof.
  unfold _format_json_with_comments.
  destruct (json_loads (_strip_json_comments raw)) as [|msg|msg];
    [left | right; left | right; right]; eauto.
Qed.

(** C3. When the validator rejects the comment-stripped text, the result
    is the input itself, unchanged, with an error; and whenever the
    result carries an error, its text is the input. *)
Theorem failure_returns_input (raw : str) :
  (json_loads (_strip_json_comments raw) <> Loaded ->
   fst (format raw) = raw /\ snd (format raw) <> None)
  /\ (snd (format raw) <> None -> fst (format raw) = raw).
Proof.
  destruct (format_cases raw)
    as [[H ->] | [(msg & H & ->) | (msg & H & ->)]]; simpl;
    split; intros; try easy.
Qed.

End FormatterFacts.

(** The text [{] is rejected: the result is [{] with an error. *)
Lemma failure_returns_input_witness :
  fst (_format_json_with_comments example_loads (py "{")) = py "{"
  /\ snd (_format_json_with_comments example_loads (py "{")) <> None.
Proof.
  apply (proj1 (failure_returns_input example_loads (py "{"))).
  vm_compute. discriminate.
Defined.

(** ** The matchers and the languages of the two patterns *)

Lemma match_literal_sound : forall pat s r,
  match_literal pat s = Some r -> exists w, s = w ++ r /\ ci_word pat w.
Proof.
  induction pat as [|p pat IH]; intros s r H; simpl in H.
  - injection H as <-. exists []. split; [reflexivity | constructor].
  - destruct s as [|c s]; [discriminate|].
    destruct (ci_match p c) eqn:E; [|discriminate].
    destruct (IH _ _ H) as (w & -> & Hw).
    exists (c :: w). split; [reflexivity | now constructor].
Qed.

Lemma match_literal_complete pat w r :
  ci_word pat w -> match_literal pat (w ++ r) = Some r.
Proof.
  induction 1 as [|p c pat w Hpc _ IH]; simpl; [reflexivity|].
  now rewrite Hpc.
Qed.

Lemma span_run cls s :
  forallb cls (fst (span cls s)) = true /\ stops cls (snd (span cls s)).
Proof.
  induction s as [|c s [IH1 IH2]]; simpl; [easy|].
  destruct (cls c) eqn:E; [|simpl; easy].
  destruct (span cls s) as [a b]; simpl in *. now rewrite E.
Qed.

Lemma match_plus_sound cls s w r :
  match_plus cls s = Some (w, r) -> s = w ++ r /\ run cls w.
Proof.
  unfold match_plus. intros H.
  destruct (span_splits cls s) as [H1 _], (span_run cls s) as [H2 _].
  destruct (span cls s) as [[|c a] b]; [discriminate|].
  injection H as <- <-. simpl in *. repeat split; [easy | discriminate | easy].
Qed.

Lemma span_greedy cls w r :
  forallb cls w = true ->
  span cls (w ++ r) = (w ++ fst (span cls r), snd (span cls r)).
Proof.
  induction w as [|c w IH]; simpl.
  - now destruct (span cls r).
  - intros [-> Hw]%andb_prop. now rewrite (IH Hw).
Qed.

Lemma span_stops cls r : stops cls r -> span cls r = ([], r).
Proof. destruct r as [|c r]; simpl; [easy | now intros ->]. Qed.

(** A run followed by a text that stops it is matched exactly. *)
Lemma match_plus_exact cls w r :
  run cls w -> stops cls r -> match_plus cls (w ++ r) = Some (w, r).
Proof.
  intros [Hne Hw] Hr. unfold match_plus.
  rewrite (span_greedy _ _ _ Hw), (span_stops _ _ Hr); simpl.
  rewrite app_nil_r. now destruct w.
Qed.

(** A run at the end of the pattern is matched with whatever of its class
    follows. *)
Lemma match_plus_longest cls w r :
  run cls w -> exists w' r',
    match_plus cls (w ++ r) = Some (w ++ w', r') /\ r = w' ++ r'.
Proof.
  intros [Hne Hw]. unfold match_plus. rewrite (span_greedy _ _ _ Hw).
  destruct (span_splits cls r) as [H1 _].
  exists (fst (span cls r)), (snd (span cls r)). split; [|easy].
  destruct w; [easy | reflexivity].
Qed.

Lemma re_search_sound {A} (f : str -> option A) : forall s m,
  re_search f s = Some m -> exists pre post, s = pre ++ post /\ f post = Some m.
Proof.
  induction s as [|c s IH]; intros m; simpl.
  - destruct (f []) eqn:E; [|discriminate].
    intros [= <-]. now exists [], [].
  - destruct (f (c :: s)) eqn:E.
    + intros [= <-]. now exists [], (c :: s).
    + intros (pre & post & -> & H)%IH. now exists (c :: pre), post.
Qed.

Lemma re_search_complete {A} (f : str -> option A) post : forall pre,
  f post <> None -> re_search f (pre ++ post) <> None.
Proof.
  intros pre H. induction pre as [|c pre IH]; simpl.
  - destruct post; simpl; destruct (f _); easy.
  - destruct (f (c :: pre ++ post)); easy.
Qed.

(** No character is both a decimal digit and whitespace, so a greedy run of
    one class ends where a run of the other begins. *)
Lemma isspace_ranges c :
  isspace c = true ->
  (9 <= c <= 13 \/ 28 <= c <= 32 \/ c = 133 \/ c = 160 \/ c = 5760
   \/ 8192 <= c <= 8202 \/ c = 8232 \/ c = 8233 \/ c = 8239 \/ c = 8287
   \/ c = 12288)%N.
Proof.
  unfold isspace, between.
  rewrite !orb_true_iff, !andb_true_iff, !N.leb_le, !N.eqb_eq. tauto.
Qed.

Lemma is_decimal_range c :
  is_decimal c = true ->
  exists z, In z decimal_zeros /\ (z <= c <= z + 9)%N.
Proof.
  unfold is_decimal, decimal_value.
  destruct (find (fun z => between z (z + 9)%N c) decimal_zeros)
    as [z|] eqn:E; [|discriminate].
  intros _. apply find_some in E as [Hin Hz]. exists z. split; [easy|].
  unfold between in Hz. now rewrite andb_true_iff, !N.leb_le in Hz.
Qed.

Lemma decimal_not_space c : is_decimal c = true -> isspace c = false.
Proof.
  intros (z & Hin & Hz)%is_decimal_range.
  destruct (isspace c) eqn:E; [exfalso|reflexivity].
  apply isspace_ranges in E. simpl in Hin.
  repeat (destruct Hin as [<-|Hin]; [lia|]). exact Hin.
Qed.

Lemma space_not_decimal c : isspace c = true -> is_decimal c = false.
Proof.
  intros H. destruct (is_decimal c) eqn:E; [|reflexivity].
  apply decimal_not_space in E. congruence.
Qed.

Lemma run_stops (cls cls' : char -> bool) w r :
  (forall c, cls c = true -> cls' c = false) ->
  run cls w -> stops cls' (w ++ r).
Proof.
  intros Hd [Hne Hw]. destruct w as [|c w]; [easy|]. simpl in *.
  apply andb_prop in Hw as [Hc _]. now apply Hd.
Qed.

Lemma ci_word_column_stops c r :
  ci_word (py "column") c -> stops isspace (c ++ r).
Proof.
  intros H. inversion H as [|p x pat w Hpx _]; subst. simpl.
  unfold ci_match in Hpx. simpl in Hpx.
  rewrite orb_false_r, orb_true_iff, !N.eqb_eq in Hpx.
  destruct Hpx as [-> | ->]; reflexivity.
Qed.

(** The anchored matchers accept exactly the texts of the two languages
    (followed by anything), and return their groups. *)
Lemma match_line_column_sound s g1 g2 :
  match_line_column s = Some (g1, g2) ->
  exists x post, s = x ++ post /\ line_column_text x g1 g2.
Proof.
  unfold match_line_column. intros H.
  destruct (match_literal (py "line") s) as [s1|] eqn:E1; [|discriminate].
  destruct (match_plus isspace s1) as [[w1 s2]|] eqn:E2; [|discriminate].
  destruct (match_plus is_decimal s2) as [[d1 s3]|] eqn:E3; [|discriminate].
  destruct (match_plus isspace s3) as [[w2 s4]|] eqn:E4; [|discriminate].
  destruct (match_literal (py "column") s4) as [s5|] eqn:E5; [|discriminate].
  destruct (match_plus isspace s5) as [[w3 s6]|] eqn:E6; [|discriminate].
  destruct (match_plus is_decimal s6) as [[d2 s7]|] eqn:E7; [|discriminate].
  injection H as <- <-.
  apply match_literal_sound in E1 as (l & -> & Hl).
  apply match_plus_sound in E2 as [-> H1].
  apply match_plus_sound in E3 as [-> H2].
  apply match_plus_sound in E4 as [-> H3].
  apply match_literal_sound in E5 as (c & -> & Hc).
  apply match_plus_sound in E6 as [-> H4].
  apply match_plus_sound in E7 as [-> H5].
  exists (l ++ w1 ++ d1 ++ w2 ++ c ++ w3 ++ d2), s7. split.
  - now rewrite <- !app_assoc.
  - now exists l, w1, w2, c, w3.
Qed.

Lemma match_line_column_complete x g1 g2 post :
  line_column_text x g1 g2 ->
  exists g2', match_line_column (x ++ post) = Some (g1, g2').
Proof.
  intros (l & w1 & w2 & c & w3 & -> & Hl & H1 & H2 & H3 & Hc & H4 & H5).
  unfold match_line_column. rewrite <- !app_assoc.
  rewrite (match_literal_complete _ _ _ Hl).
  rewrite (match_plus_exact _ _ _ H1)
    by (eapply run_stops; [apply decimal_not_space | exact H2]).
  rewrite (match_plus_exact _ _ _ H2)
    by (eapply run_stops; [apply space_not_decimal | exact H3]).
  rewrite (match_plus_exact _ _ _ H3) by now apply ci_word_column_stops.
  rewrite (match_literal_complete _ _ _ Hc).
  rewrite (match_plus_exact _ _ _ H4)
    by (eapply run_stops; [apply decimal_not_space | exact H5]).
  destruct (match_plus_longest _ _ post H5) as (w' & r' & -> & _).
  now exists (g2 ++ w').
Qed.

Lemma match_char_sound s g :
  match_char s = Some g -> exists x post, s = x ++ post /\ char_text x g.
Proof.
  unfold match_char. intros H.
  destruct (match_literal (py "(char") s) as [s1|] eqn:E1; [|discriminate].
  destruct (match_plus isspace s1) as [[w1 s2]|] eqn:E2; [|discriminate].
  destruct (match_plus is_decimal s2) as [[d1 s3]|] eqn:E3; [|discriminate].
  destruct (match_literal [RPAREN] s3) as [s4|] eqn:E4; [|discriminate].
  injection H as <-.
  apply match_literal_sound in E1 as (o & -> & Ho).
  apply match_plus_sound in E2 as [-> H1].
  apply match_plus_sound in E3 as [-> H2].
  apply match_literal_sound in E4 as (p & -> & Hp).
  assert (p = [RPAREN]) as ->.
  { inversion Hp as [|a b pat w Hab Hrest]; subst.
    inversion Hrest; subst. unfold ci_match in Hab; simpl in Hab.
    rewrite !orb_false_r in Hab. now apply N.eqb_eq in Hab as ->. }
  exists (o ++ w1 ++ d1 ++ [RPAREN]), s4. split.
  - now rewrite <- !app_assoc.
  - now exists o, w1.
Qed.

Lemma match_char_complete x g post :
  char_text x g -> match_char (x ++ post) = Some g.
Proof.
  intros (o & w & -> & Ho & H1 & H2).
  unfold match_char. rewrite <- !app_assoc.
  rewrite (match_literal_complete _ _ _ Ho).
  rewrite (match_plus_exact _ _ _ H1)
    by (eapply run_stops; [apply decimal_not_space | exact H2]).
  rewrite (match_plus_exact _ _ _ H2) by reflexivity.
  reflexivity.
Qed.

(** [re.search] finds a match exactly when the message has an occurrence. *)
Lemma search_line_column_sound msg g1 g2 :
  re_search match_line_column msg = Some (g1, g2) ->
  has_line_column msg g1 g2.
Proof.
  intros (pre & s & -> & H)%re_search_sound.
  apply match_line_column_sound in H as (x & post & -> & Hx).
  now exists pre, x, post.
Qed.

Lemma search_line_column_complete msg g1 g2 :
  has_line_column msg g1 g2 -> re_search match_line_column msg <> None.
Proof.
  intros (pre & x & post & -> & Hx). apply re_search_complete.
  destruct (match_line_column_complete _ _ _ post Hx) as [g2' ->]. discriminate.
Qed.

Lemma search_char_sound msg g :
  re_search match_char msg = Some g -> has_char msg g.
Proof.
  intros (pre & s & -> & H)%re_search_sound.
  apply match_char_sound in H as (x & post & -> & Hx).
  now exists pre, x, post.
Qed.

Lemma search_char_complete msg g :
  has_char msg g -> re_search match_char msg <> None.
Proof.
  intros (pre & x & post & -> & Hx). apply re_search_complete.
  rewrite (match_char_complete _ _ post Hx). discriminate.
Qed.

(** [int] of a run of digits is the number the run writes. *)
Lemma py_int_from g : forall acc,
  fold_left
    (fun acc c =>
       (10 * acc
        + match decimal_value c with Some d => d | None => 0 end)%N)
    g acc
  = (acc * 10 ^ N.of_nat (length g) + digits_number g)%N.
Proof.
  induction g as [|c g IH]; intros acc.
  - simpl. lia.
  - cbn [fold_left digits_number length]. rewrite IH.
    rewrite Nat2N.inj_succ, N.pow_succ_r'. lia.
Qed.

Lemma py_int_digits_number g : py_int g = digits_number g.
Proof. unfold py_int. rewrite py_int_from. lia. Qed.

(** What a greedy run leaves does not go on with its class. *)
Lemma match_plus_stops cls s w r :
  match_plus cls s = Some (w, r) -> stops cls r.
Proof.
  unfold match_plus. intros H. destruct (span_run cls s) as [_ H2].
  destruct (span cls s) as [[|c a] b]; [discriminate|].
  now injection H as <- <-.
Qed.

(** The match of the first pattern ends where its last run of digits
    ends. *)
Lemma match_line_column_greedy s g1 g2 :
  match_line_column s = Some (g1, g2) ->
  exists x post,
    s = x ++ post /\ line_column_text x g1 g2 /\ stops is_decimal post.
Proof.
  unfold match_line_column. intros H.
  destruct (match_literal (py "line") s) as [s1|] eqn:E1; [|discriminate].
  destruct (match_plus isspace s1) as [[w1 s2]|] eqn:E2; [|discriminate].
  destruct (match_plus is_decimal s2) as [[d1 s3]|] eqn:E3; [|discriminate].
  destruct (match_plus isspace s3) as [[w2 s4]|] eqn:E4; [|discriminate].
  destruct (match_literal (py "column") s4) as [s5|] eqn:E5; [|discriminate].
  destruct (match_plus isspace s5) as [[w3 s6]|] eqn:E6; [|discriminate].
  destruct (match_plus is_decimal s6) as [[d2 s7]|] eqn:E7; [|discriminate].
  injection H as <- <-.
  pose proof (match_plus_stops _ _ _ _ E7) as Hstop.
  apply match_literal_sound in E1 as (l & -> & Hl).
  apply match_plus_sound in E2 as [-> H1].
  apply match_plus_sound in E3 as [-> H2].
  apply match_plus_sound in E4 as [-> H3].
  apply match_literal_sound in E5 as (c & -> & Hc).
  apply match_plus_sound in E6 as [-> H4].
  apply match_plus_sound in E7 as [-> H5].
  exists (l ++ w1 ++ d1 ++ w2 ++ c ++ w3 ++ d2), s7. repeat split.
  - now rewrite <- !app_assoc.
  - now exists l, w1, w2, c, w3.
  - exact Hstop.
Qed.

(** A text of the first pattern followed by no digit is matched with its
    own groups. *)
Lemma match_line_column_whole x g1 g2 post :
  line_column_text x g1 g2 -> stops is_decimal post ->
  match_line_column (x ++ post) = Some (g1, g2).
Proof.
  intros (l & w1 & w2 & c & w3 & -> & Hl & H1 & H2 & H3 & Hc & H4 & H5) Hp.
  unfold match_line_column. rewrite <- !app_assoc.
  rewrite (match_literal_complete _ _ _ Hl).
  rewrite (match_plus_exact _ _ _ H1)
    by (eapply run_stops; [apply decimal_not_space | exact H2]).
  rewrite (match_plus_exact _ _ _ H2)
    by (eapply run_stops; [apply space_not_decimal | exact H3]).
  rewrite (match_plus_exact _ _ _ H3) by now apply ci_word_column_stops.
  rewrite (match_literal_complete _ _ _ Hc).
  rewrite (match_plus_exact _ _ _ H4)
    by (eapply run_stops; [apply decimal_not_space | exact H5]).
  now rewrite (match_plus_exact _ _ _ H5 Hp).
Qed.

(** [re.search] returns the match at the first position that has one. *)
Lemma re_search_first {A} (f : str -> option A) : forall s m,
  re_search f s = Some m ->
  exists pre post,
    s = pre ++ post /\ f post = Some m
    /\ forall p1 p2, pre = p1 ++ p2 -> p2 <> [] -> f (p2 ++ post) = None.
Proof.
  induction s as [|c s IH]; intros m; cbn [re_search].
  - destruct (f []) eqn:E; [|discriminate].
    intros [= <-]. exists [], []. repeat split; auto.
    intros p1 p2 H. now destruct p1, p2.
  - destruct (f (c :: s)) eqn:E.
    + intros [= <-]. exists [], (c :: s). repeat split; auto.
      intros p1 p2 H. now destruct p1, p2.
    + intros (pre & post & -> & H & Hnone)%IH.
      exists (c :: pre), post. repeat split; auto.
      intros [|d p1] p2 Hp Hne.
      * cbn [app] in Hp. subst p2. exact E.
      * injection Hp as -> ->. now apply (Hnone p1 p2).
Qed.

Lemma re_search_before {A} (f : str -> option A) pre post m :
  f post = Some m ->
  (forall p1 p2, pre = p1 ++ p2 -> p2 <> [] -> f (p2 ++ post) = None) ->
  re_search f (pre ++ post) = Some m.
Proof.
  revert m. induction pre as [|c pre IH]; intros m Hm Hnone.
  - destruct post; cbn [app re_search]; now rewrite Hm.
  - pose proof (Hnone [] (c :: pre) eq_refl ltac:(discriminate)) as H0.
    change ((c :: pre) ++ post) with (c :: pre ++ post) in *.
    cbn [re_search]. rewrite H0.
    apply IH; [exact Hm|].
    intros p1 p2 -> Hne. now apply (Hnone (c :: p1) p2).
Qed.

(** Of two prefixes of a text, the shorter is a prefix of the longer. *)
Lemma shorter_prefix (a b a' b' : str) :
  a ++ b = a' ++ b' -> length a' < length a ->
  exists p2, a = a' ++ p2 /\ p2 <> [] /\ b' = p2 ++ b.
Proof.
  revert a'. induction a as [|c a IH]; intros a' H Hlen; [simpl in Hlen; lia|].
  destruct a' as [|c' a'].
  - exists (c :: a). repeat split; [discriminate | symmetry; exact H].
  - cbn [app] in H. injection H as <- H. cbn [length] in Hlen.
    destruct (IH a' H ltac:(lia)) as (p2 & -> & Hne & ->).
    now exists p2.
Qed.

(** The match that [re.search] returns for the first pattern is the first
    occurrence, and only that. *)
Lemma search_first_line_column msg g1 g2 :
  re_search match_line_column msg = Some (g1, g2) <->
  first_line_column msg g1 g2.
Proof.
  split.
  - intros (pre & s & -> & H & Hnone)%re_search_first.
    apply match_line_column_greedy in H as (x & post & -> & Hx & Hstop).
    exists pre, x, post. repeat split; auto.
    intros pre' x' post' h1 h2 E Hx'.
    destruct (Nat.le_gt_cases (length pre) (length pre')) as [|Hlt];
      [assumption | exfalso].
    destruct (shorter_prefix _ _ _ _ E Hlt) as (p2 & Hp & Hne & Hrest).
    specialize (Hnone pre' p2 Hp Hne). rewrite <- Hrest in Hnone.
    destruct (match_line_column_complete _ _ _ post' Hx') as [g2' Hm].
    congruence.
  - intros (pre & x & post & -> & Hx & Hstop & Hmin).
    apply re_search_before; [now apply match_line_column_whole|].
    intros p1 p2 -> Hne.
    destruct (match_line_column (p2 ++ x ++ post)) as [[h1 h2]|] eqn:E;
      [exfalso | reflexivity].
    apply match_line_column_sound in E as (x' & post' & E & Hx').
    assert (Hmsg : (p1 ++ p2) ++ x ++ post = p1 ++ x' ++ post')
      by now rewrite <- app_assoc, E.
    specialize (Hmin p1 x' post' h1 h2 Hmsg Hx').
    rewrite length_app in Hmin. destruct p2; [easy | simpl in Hmin; lia].
Qed.

Lemma search_first_char msg g :
  re_search match_char msg = Some g <-> first_char msg g.
Proof.
  split.
  - intros (pre & s & -> & H & Hnone)%re_search_first.
    apply match_char_sound in H as (x & post & -> & Hx).
    exists pre, x, post. repeat split; auto.
    intros pre' x' post' h E Hx'.
    destruct (Nat.le_gt_cases (length pre) (length pre')) as [|Hlt];
      [assumption | exfalso].
    destruct (shorter_prefix _ _ _ _ E Hlt) as (p2 & Hp & Hne & Hrest).
    specialize (Hnone pre' p2 Hp Hne). rewrite <- Hrest in Hnone.
    rewrite (match_char_complete _ _ post' Hx') in Hnone. discriminate.
  - intros (pre & x & post & -> & Hx & Hmin).
    apply re_search_before; [now apply match_char_complete|].
    intros p1 p2 -> Hne.
    destruct (match_char (p2 ++ x ++ post)) as [h|] eqn:E;
      [exfalso | reflexivity].
    apply match_char_sound in E as (x' & post' & E & Hx').
    assert (Hmsg : (p1 ++ p2) ++ x ++ post = p1 ++ x' ++ post')
      by now rewrite <- app_assoc, E.
    specialize (Hmin p1 x' post' h Hmsg Hx').
    rewrite length_app in Hmin. destruct p2; [easy | simpl in Hmin; lia].
Qed.

(** A message has one first occurrence of each pattern at most. *)
Lemma first_line_column_unique msg g1 g2 h1 h2 :
  first_line_column msg g1 g2 -> first_line_column msg h1 h2 ->
  g1 = h1 /\ g2 = h2.
Proof.
  intros Hg%search_first_line_column Hh%search_first_line_column.
  rewrite Hg in Hh. now injection Hh.
Qed.

Lemma first_char_unique msg g h :
  first_char msg g -> first_char msg h -> g = h.
Proof.
  intros Hg%search_first_char Hh%search_first_char.
  rewrite Hg in Hh. now injection Hh.
Qed.

Lemma value_error_info_positions msg :
  positions_extracted msg (value_error_info msg).
Proof.
  unfold positions_extracted, value_error_info; cbn [lineno colno pos].
  repeat split.
  - intros (a & b & H). apply search_line_column_complete in H.
    destruct (re_search match_line_column msg) as [[g1 g2]|] eqn:E; [|easy].
    exists g1, g2. now apply search_first_line_column.
  - apply search_first_line_column in H. rewrite H.
    now rewrite py_int_digits_number.
  - apply search_first_line_column in H. rewrite H.
    now rewrite py_int_digits_number.
  - destruct (re_search match_line_column msg) as [[g1 g2]|] eqn:E; [|easy].
    now apply search_line_column_sound, H in E.
  - destruct (re_search match_line_column msg) as [[g1 g2]|] eqn:E; [|easy].
    now apply search_line_column_sound, H in E.
  - intros (a & H). apply search_char_complete in H.
    destruct (re_search match_char msg) as [g|] eqn:E; [|easy].
    exists g. now apply search_first_char.
  - intros g H. apply search_first_char in H. rewrite H.
    now rewrite py_int_digits_number.
  - intros H. destruct (re_search match_char msg) as [g|] eqn:E; [|easy].
    now apply search_char_sound, H in E.
Qed.

(** What [positions_extracted] asks for the message [line 12 column 34]:
    line 12 and column 34, no part of them, and no offset. *)
Lemma positions_extracted_pins e :
  positions_extracted (py "line 12 column 34") e ->
  lineno e = Some 12%N /\ colno e = Some 34%N /\ pos e = None.
Proof.
  intros (_ & Hfirst & _ & _ & _ & Hnone).
  assert (H : first_line_column (py "line 12 column 34") (py "12") (py "34"))
    by now apply search_first_line_column.
  destruct (Hfirst _ _ H) as [-> ->]. repeat split.
  apply Hnone. intros g Hg%search_char_complete. now apply Hg.
Qed.

(** The plain form of the two patterns, with single spaces and ASCII
    digits, is in their languages. *)
Lemma ascii_digit_decimal c : ascii_digit c = true -> is_decimal c = true.
Proof.
  unfold ascii_digit, is_decimal, decimal_value. simpl. now intros ->.
Qed.

Lemma ascii_run_decimal w : run ascii_digit w -> run is_decimal w.
Proof.
  intros [Hne Hw]. split; [easy|].
  rewrite forallb_forall in *. auto using ascii_digit_decimal.
Qed.

Lemma ci_word_refl pat : ci_word pat pat.
Proof.
  induction pat as [|p pat IH]; constructor; [|exact IH].
  unfold ci_match. now rewrite N.eqb_refl.
Qed.

Lemma run_one cls c : cls c = true -> run cls [c].
Proof. intros H. split; [discriminate | simpl; now rewrite H]. Qed.

Lemma plain_line_column pre n m post :
  run ascii_digit n -> run ascii_digit m ->
  has_line_column
    (pre ++ (py "line " ++ n ++ py " column " ++ m) ++ post) n m.
Proof.
  intros Hn%ascii_run_decimal Hm%ascii_run_decimal.
  exists pre, (py "line " ++ n ++ py " column " ++ m), post.
  split; [reflexivity|].
  exists (py "line"), [SPACE], [SPACE], (py "column"), [SPACE].
  split; [reflexivity|].
  auto 10 using ci_word_refl, run_one.
Qed.

Lemma plain_char pre k post :
  run ascii_digit k ->
  has_char (pre ++ (py "(char " ++ k ++ py ")") ++ post) k.
Proof.
  intros Hk%ascii_run_decimal.
  exists pre, (py "(char " ++ k ++ py ")"), post. split; [reflexivity|].
  exists (py "(char"), [SPACE].
  split; [reflexivity|].
  auto using ci_word_refl, run_one.
Qed.

(** C9. When validation fails with a [ValueError], the error carries the
    validator's message.  When the message has an occurrence of
    [line <N> column <M>] (in capitals or not, with any whitespace between
    the parts), line and column are the numbers N and M of its first
    occurrence, each the whole run of digits; when it has none, they are
    [None].  When the message has an occurrence of the parenthesised
    [(char <K>)], the offset is the number K of its first occurrence; when
    it has none, the offset is [None]. *)
Theorem error_positions (json_loads : str -> loads_outcome) (raw msg : str) :
  json_loads (_strip_json_comments raw) = RaisedValueError msg ->
  exists e,
    _format_json_with_comments json_loads raw = (raw, Some e)
    /\ message e = msg /\ positions_extracted msg e.
Proof.
  intros H. unfold _format_json_with_comments. rewrite H.
  exists (value_error_info msg).
  split; [reflexivity | split; [reflexivity|]].
  apply value_error_info_positions.
Qed.

(** Formatting [{], which the validator rejects with a message that holds
    both patterns. *)
Lemma error_positions_witness :
  exists e,
    _format_json_with_comments example_loads (py "{") = (py "{", Some e)
    /\ message e = property_name_message
    /\ positions_extracted property_name_message e.
Proof.
  apply (error_positions example_loads (py "{")). reflexivity.
Defined.

(** A validator message that gives a range,
    [Extra data: line 1 column 3 - line 1 column 4 (char 2 - 3)], holds
    [char 2] after a parenthesis that is not closed after the number: the
    second pattern, which asks for [(char <K>)] with both parentheses,
    finds nothing, and the error built from the message has line 1,
    column 3 and no offset.  The message is the input here: the validator
    is one that raises it, as [json.loads] of Python 3.3 and 3.4 does for
    [{}}]; that of Python 3.5 and later says [(char 2)] for this text, and
    the offset is 2. *)
Lemma char_offset_needs_parentheses :
  (exists pre post, extra_data_message = pre ++ py "char 2" ++ post)
  /\ value_error_info extra_data_message
     = ErrorInfo extra_data_message (Some 1%N) (Some 3%N) None
  /\ _format_json_with_comments (rejects_with extra_data_message)
       (py "{}}")
     = (py "{}}",
        Some (ErrorInfo extra_data_message (Some 1%N) (Some 3%N) None)).
Proof.
  split; [|split; reflexivity].
  exists (py "Extra data: line 1 column 3 - line 1 column 4 ("), (py " - 3)").
  reflexivity.
Qed.

(** ** What the [try] statement catches *)

Section TryStatement.

Import Exceptions.

Variable max_str_digits : nat.
Variable int_limit_message : nat -> str.
Variable json_loads : str -> outcome unit.

Abbreviation try_int := (int max_str_digits int_limit_message).

Abbreviation try_handler :=
  (value_error_handler max_str_digits int_limit_message).

Abbreviation try_format :=
  (Exceptions._format_json_with_comments max_str_digits int_limit_message
     json_loads).

Lemma int_returns g :
  max_str_digits = 0 \/ length g <= max_str_digits ->
  try_int g = Returns (py_int g).
Proof.
  intros H. unfold int.
  destruct (max_str_digits_threshold <? length g); [|reflexivity].
  destruct (0 <? max_str_digits) eqn:E1; [|reflexivity].
  destruct (max_str_digits <? length g) eqn:E2; [|reflexivity].
  apply Nat.ltb_lt in E1, E2. lia.
Qed.

Lemma int_raises g :
  max_str_digits_threshold < length g ->
  0 < max_str_digits -> max_str_digits < length g ->
  exists exc, try_int g = Raises exc /\ class_of exc = ValueError.
Proof.
  intros H0 H1 H2. unfold int.
  apply Nat.ltb_lt in H0, H1, H2. rewrite H0, H1, H2. eexists. now split.
Qed.

(** The groups of a match are runs of digits of the message. *)
Lemma line_column_groups_within msg g1 g2 :
  digits_within max_str_digits msg ->
  re_search match_line_column msg = Some (g1, g2) ->
  (max_str_digits = 0 \/ length g1 <= max_str_digits)
  /\ (max_str_digits = 0 \/ length g2 <= max_str_digits).
Proof.
  intros [H | H] E; [now split; left|].
  apply search_line_column_sound in E as (pre & x & post & -> & Hx).
  destruct Hx
    as (l & w1 & w2 & c & w3 & -> & _ & _ & [_ H1] & _ & _ & _ & [_ H2]).
  split; right.
  - apply (H (pre ++ l ++ w1) g1 (w2 ++ c ++ w3 ++ g2 ++ post));
      [now rewrite <- !app_assoc | exact H1].
  - apply (H (pre ++ l ++ w1 ++ g1 ++ w2 ++ c ++ w3) g2 post);
      [now rewrite <- !app_assoc | exact H2].
Qed.

Lemma char_group_within msg g :
  digits_within max_str_digits msg ->
  re_search match_char msg = Some g ->
  max_str_digits = 0 \/ length g <= max_str_digits.
Proof.
  intros [H | H] E; [now left|].
  apply search_char_sound in E as (pre & x & post & -> & Hx).
  destruct Hx as (o & w & -> & _ & _ & [_ H1]). right.
  apply (H (pre ++ o ++ w) g ([RPAREN] ++ post));
    [now rewrite <- !app_assoc | exact H1].
Qed.

(** When [int] takes the digits of the message, the handler returns what
    the first model says. *)
Lemma value_error_handler_returns raw msg :
  digits_within max_str_digits msg ->
  try_handler raw msg = Returns (raw, Some (value_error_info msg)).
Proof.
  intros H. unfold value_error_handler, value_error_info.
  destruct (re_search match_line_column msg) as [[g1 g2]|] eqn:E1;
    destruct (re_search match_char msg) as [g|] eqn:E2;
    try (destruct (line_column_groups_within _ _ _ H E1) as [H1 H2];
         rewrite (int_returns _ H1), (int_returns _ H2));
    try rewrite (int_returns _ (char_group_within _ _ H E2));
    reflexivity.
Qed.

(** C10. When [json.loads] raises an instance of [Exception] -- the
    exceptions it raises itself are such -- nothing propagates:
    [_format_json_with_comments] returns, the text it returns is the input
    unchanged, and the error holds the exception's message.  For a
    [ValueError] the position fields are those of the first occurrences
    of the two patterns in the message (each [None] when its pattern does
    not occur), provided [int] takes the numbers, which it always does on
    a runtime without a digit limit and whenever no run of digits in the
    message is longer than the limit; for any other exception the three
    position fields are [None].  When [json.loads] returns, the function
    returns the printed tokens and no error. *)
Theorem format_never_raises (raw : str) :
  (forall exc,
     json_loads (_strip_json_comments raw) = Raises exc ->
     class_of exc <> NotException
     /\ (class_of exc = ValueError ->
         digits_within max_str_digits (str_of exc))) ->
  exists result,
    try_format raw = Returns result
    /\ match json_loads (_strip_json_comments raw) with
       | Returns _ =>
           result
           = (_pretty_print_tokens_with_comments
                (_tokenize_json_with_comments raw) (endswith raw [LF]),
              None)
       | Raises exc =>
           exists e,
             result = (raw, Some e)
             /\ message e = str_of exc
             /\ match class_of exc with
                | ValueError => positions_extracted (str_of exc) e
                | _ => lineno e = None /\ colno e = None /\ pos e = None
                end
       end.
Proof.
  intros H. unfold Exceptions._format_json_with_comments. cbv zeta.
  destruct (json_loads (_strip_json_comments raw)) as [[]|[cls msg]].
  - eexists. split; reflexivity.
  - destruct (H _ eq_refl) as [Hcls Hint]. cbn [class_of str_of] in *.
    destruct cls; [| |contradiction].
    + rewrite (value_error_handler_returns _ _ (Hint eq_refl)).
      eexists. split; [reflexivity|].
      exists (value_error_info msg).
      split; [reflexivity|]. split; [reflexivity|].
      apply value_error_info_positions.
    + eexists. split; [reflexivity|]. eexists. repeat split.
Qed.

(** What is outside the theorem does propagate: an exception that is not
    an instance of [Exception] passes both [except] clauses, and a number
    of more digits than the limit makes [int] raise in the handler, whose
    exceptions no clause catches. *)
Lemma not_exception_propagates raw exc :
  json_loads (_strip_json_comments raw) = Raises exc ->
  class_of exc = NotException ->
  try_format raw = Raises exc.
Proof.
  intros H Hc. unfold Exceptions._format_json_with_comments. cbv zeta.
  now rewrite H, Hc.
Qed.

Lemma long_number_raises raw exc g1 g2 :
  json_loads (_strip_json_comments raw) = Raises exc ->
  class_of exc = ValueError ->
  first_line_column (str_of exc) g1 g2 ->
  max_str_digits_threshold < length g1 ->
  0 < max_str_digits -> max_str_digits < length g1 ->
  exists exc', try_format raw = Raises exc' /\ class_of exc' = ValueError.
Proof.
  intros H Hc Hg Ht H0 Hlen.
  unfold Exceptions._format_json_with_comments. cbv zeta.
  rewrite H, Hc. unfold value_error_handler.
  apply search_first_line_column in Hg. rewrite Hg.
  destruct (int_raises g1 Ht H0 Hlen) as (exc' & -> & Hc').
  now exists exc'.
Qed.

End TryStatement.

(** The first model is this one on a runtime without digit limit, for a
    validator that raises instances of [Exception] only. *)
Lemma format_as_outcome (int_limit_message : nat -> str)
    (json_loads : str -> loads_outcome) (raw : str) :
  Exceptions._format_json_with_comments 0 int_limit_message
    (fun cleaned => as_outcome (json_loads cleaned)) raw
  = Exceptions.Returns (_format_json_with_comments json_loads raw).
Proof.
  unfold Exceptions._format_json_with_comments, _format_json_with_comments.
  cbv zeta.
  destruct (json_loads (_strip_json_comments raw)) as [|msg|msg];
    cbn [as_outcome Exceptions.class_of Exceptions.str_of];
    try reflexivity.
  apply value_error_handler_returns. now left.
Qed.

(** A [ValueError] with the message of [json.loads] for the text [{], on
    a runtime with the limit of 4300 digits. *)
Lemma format_never_raises_witness :
  exists result,
    Exceptions._format_json_with_comments 4300 (fun _ => [])
      (fun _ =>
         Exceptions.Raises
           (Exceptions.Exc Exceptions.ValueError property_name_message))
      (py "{")
    = Exceptions.Returns result
    /\ exists e,
         result = (py "{", Some e)
         /\ message e = property_name_message
         /\ positions_extracted property_name_message e.
Proof.
  apply (format_never_raises 4300 (fun _ => [])
           (fun _ =>
              Exceptions.Raises
                (Exceptions.Exc Exceptions.ValueError
                   property_name_message))
           (py "{")).
  intros exc [= <-]. split; [discriminate|]. intros _. right.
  intros pre g post E _. apply (f_equal (@length char)) in E.
  rewrite !length_app in E.
  assert (L : length property_name_message <= 4300)
    by (apply Nat.leb_le; reflexivity).
  cbn [Exceptions.str_of] in E. lia.
Defined.

(** ** The end of the formatted text *)

Lemma lstrip_head s :
  match lstrip s with
  | [] => True
  | c :: _ => isspace c = false
  end.
Proof.
  induction s as [|c s IH]; simpl; [easy|].
  destruct (isspace c) eqn:E; [exact IH | exact E].
Qed.

Lemma rstrip_no_trailing_space s : ends_in_space (rstrip s) = false.
Proof.
  unfold ends_in_space, rstrip. rewrite rev_involutive.
  pose proof (lstrip_head (rev s)) as H.
  now destruct (lstrip (rev s)).
Qed.

Lemma endswith_snoc s c : endswith (s ++ [c]) [c] = true.
Proof.
  unfold endswith. rewrite rev_app_distr. simpl. now rewrite N.eqb_refl.
Qed.

Lemma no_space_no_line_feed s :
  ends_in_space s = false -> endswith s [LF] = false.
Proof.
  unfold ends_in_space, endswith. change (rev [LF]) with [LF].
  destruct (rev s) as [|c t]; [reflexivity|]. intros H. cbn [startswith].
  destruct (N.eqb_spec LF c) as [<-|]; [discriminate H | reflexivity].
Qed.

(** The printer ends its text as [newline_at_end] says, whatever the
    tokens. *)
Lemma pretty_print_end tokens newline_at_end :
  exists body,
    _pretty_print_tokens_with_comments tokens newline_at_end
    = body ++ (if newline_at_end then [LF] else [])
    /\ ends_in_space body = false.
Proof.
  unfold _pretty_print_tokens_with_comments.
  eexists. split; [|apply rstrip_no_trailing_space].
  destruct newline_at_end; [reflexivity | now rewrite app_nil_r].
Qed.

(** C7. For an input the validator accepts, the formatted text is a text
    that ends in no whitespace, followed by exactly one line feed when the
    input ends with a line feed and by nothing otherwise; so it ends with
    a line feed if and only if the input does.  A carriage return at the
    end of the input does not count as a line break. *)
Theorem trailing_newline (json_loads : str -> loads_outcome) (raw : str) :
  json_loads (_strip_json_comments raw) = Loaded ->
  exists body,
    fst (_format_json_with_comments json_loads raw)
    = body ++ (if endswith raw [LF] then [LF] else [])
    /\ ends_in_space body = false
    /\ endswith (fst (_format_json_with_comments json_loads raw)) [LF]
       = endswith raw [LF].
Proof.
  intros H. unfold _format_json_with_comments. rewrite H. simpl.
  destruct (pretty_print_end (_tokenize_json_with_comments raw)
              (endswith raw [LF])) as (body & -> & Hbody).
  exists body. split; [reflexivity | split; [exact Hbody|]].
  destruct (endswith raw [LF]).
  - apply endswith_snoc.
  - rewrite app_nil_r. now apply no_space_no_line_feed.
Qed.

(** The input [{}] followed by a line feed. *)
Lemma trailing_newline_witness :
  exists body,
    fst (_format_json_with_comments example_loads (py "{}" ++ [LF]))
    = body ++ (if endswith (py "{}" ++ [LF]) [LF] then [LF] else [])
    /\ ends_in_space body = false
    /\ endswith
         (fst (_format_json_with_comments example_loads (py "{}" ++ [LF])))
         [LF]
       = endswith (py "{}" ++ [LF]) [LF].
Proof.
  apply (trailing_newline example_loads (py "{}" ++ [LF])). reflexivity.
Defined.

(** With the carriage return as a line break the property fails: the
    input [{}] followed by a carriage return ends with a line break and is
    accepted (a carriage return is JSON whitespace), and the formatted
    text ends with no line break. *)
Lemma carriage_return_not_counted :
  ends_with_eol (py "{}" ++ [CR]) = true
  /\ _format_json_with_comments example_loads (py "{}" ++ [CR])
     = (py "{" ++ [LF] ++ py "    }", None)
  /\ ends_with_eol (py "{" ++ [LF] ++ py "    }") = false.
Proof. repeat split; reflexivity. Qed.

(** ** Where the code departs from its description *)

(** C1. The empty object is not kept compact: the closing brace is
    written directly, but after the line break and the indentation that
    the opening brace has already written. *)
Theorem empty_object_not_compact :
  _pretty_print_tokens_with_comments
    (_tokenize_json_with_comments (py "{}")) (endswith (py "{}") [LF])
  = py "{" ++ [LF] ++ py "    }"
  /\ _format_json_with_comments example_loads (py "{}")
     = (py "{" ++ [LF] ++ py "    }", None).
Proof. split; reflexivity. Qed.

(** C4. An unterminated block comment does not reach the end of the
    input: its token stops one character short, and the last character
    becomes a token of its own. *)
Theorem unterminated_block_comment_short :
  _tokenize_json_with_comments (py "/* oops")
  = [Token Kcomment (py "/* oop"); Token Kliteral (py "s")].
Proof. reflexivity. Qed.

(** C5. A block comment between two digits: the stripped input is the
    number 12, which the validator accepts; the formatted text puts the
    digits on two lines, and its stripped form is two numbers, which the
    validator rejects. *)
Theorem comment_glued_literals :
  _strip_json_comments (py "1/**/2") = py "12"
  /\ _format_json_with_comments example_loads (py "1/**/2")
     = (py "1" ++ [LF] ++ py "/**/" ++ [LF] ++ py "2", None)
  /\ _strip_json_comments (py "1" ++ [LF] ++ py "/**/" ++ [LF] ++ py "2")
     = py "1" ++ [LF; LF] ++ py "2"
  /\ example_loads (py "1" ++ [LF; LF] ++ py "2") <> Loaded.
Proof. repeat split; try reflexivity. discriminate. Qed.

(** C6. A block comment of two lines inside an array: the input is
    accepted and formatted, the formatted text is accepted again, and
    formatting it once more indents the second line of the comment by
    four more spaces. *)
Theorem block_comment_drifts :
  _format_json_with_comments example_loads two_line_comment
  = (formatted_once, None)
  /\ _format_json_with_comments example_loads formatted_once
     = (formatted_twice, None)
  /\ formatted_twice <> formatted_once.
Proof. repeat split; try reflexivity. discriminate. Qed.

(** ** Block comments, in general *)

Lemma str_in_cons x c s : str_in x (c :: s) = false ->
  startswith (c :: s) x = false /\ str_in x s = false.
Proof. simpl. now intros [H1 H2]%orb_false_elim. Qed.

Lemma scan_block_cons c d s :
  scan_block (c :: d :: s)
  = if (c =? STAR)%N && (d =? SLASH)%N then ([c; d], s)
    else let (a, b) := scan_block (d :: s) in (c :: a, b).
Proof. reflexivity. Qed.

Lemma startswith_close c d s :
  startswith (c :: d :: s) (py "*/") = (c =? STAR)%N && (d =? SLASH)%N.
Proof.
  change (py "*/") with [STAR; SLASH]. cbn [startswith].
  now rewrite andb_true_r, (N.eqb_sym STAR), (N.eqb_sym SLASH).
Qed.

(** A body with no closing delimiter, followed by a closing delimiter, is
    consumed with it. *)
Lemma scan_block_closed : forall body rest,
  str_in (py "*/") body = false ->
  scan_block (body ++ py "*/" ++ rest) = (body ++ py "*/", rest).
Proof.
  induction body as [|c body IH]; intros rest H; [reflexivity|].
  apply str_in_cons in H as [H1 H2].
  specialize (IH rest H2).
  destruct body as [|d body].
  - change (scan_block (c :: STAR :: SLASH :: rest)
            = (c :: py "*/", rest)).
    rewrite scan_block_cons.
    change (STAR =? SLASH)%N with false. now rewrite andb_false_r.
  - change (scan_block (c :: d :: body ++ py "*/" ++ rest)
            = (c :: (d :: body) ++ py "*/", rest)).
    rewrite scan_block_cons, <- startswith_close with (s := body), H1.
    change (d :: body ++ py "*/" ++ rest)
      with ((d :: body) ++ py "*/" ++ rest).
    now rewrite IH.
Qed.

(** A non-empty body with no closing delimiter that runs to the end of the
    input is consumed without its last character. *)
Lemma scan_block_open : forall body c,
  str_in (py "*/") (body ++ [c]) = false ->
  scan_block (body ++ [c]) = (body, [c]).
Proof.
  induction body as [|x body IH]; intros c H; [reflexivity|].
  change ((x :: body) ++ [c]) with (x :: body ++ [c]) in *.
  apply str_in_cons in H as [H1 H2].
  specialize (IH c H2).
  destruct (body ++ [c]) as [|d s] eqn:E; [now destruct body|].
  now rewrite scan_block_cons, <- startswith_close with (s := s), H1, IH.
Qed.

Lemma next_token_block rest :
  next_token SLASH (STAR :: rest)
  = let (body, r) := scan_block rest in
    (Token Kcomment (SLASH :: STAR :: body), r).
Proof. reflexivity. Qed.

(** X11. A terminated block comment is one token with both delimiters; an
    unterminated one with a non-empty body is a token without the last
    character of the input, which is tokenized on its own. *)
Lemma block_comment_tokens body :
  (forall rest,
     str_in (py "*/") body = false ->
     _tokenize_json_with_comments (py "/*" ++ body ++ py "*/" ++ rest)
     = Token Kcomment (py "/*" ++ body ++ py "*/")
       :: _tokenize_json_with_comments rest)
  /\ (forall c,
        str_in (py "*/") (body ++ [c]) = false ->
        _tokenize_json_with_comments (py "/*" ++ body ++ [c])
        = Token Kcomment (py "/*" ++ body)
          :: _tokenize_json_with_comments [c]).
Proof.
  split.
  - intros rest H.
    change (py "/*" ++ body ++ py "*/" ++ rest)
      with (SLASH :: STAR :: body ++ py "*/" ++ rest).
    now rewrite tokenize_cons, next_token_block, (scan_block_closed _ _ H).
  - intros c H.
    change (py "/*" ++ body ++ [c]) with (SLASH :: STAR :: body ++ [c]).
    now rewrite tokenize_cons, next_token_block, (scan_block_open _ _ H).
Qed.

(** ** Empty containers, in general *)

Lemma reversed_chars_snoc ps x :
  reversed_chars (ps ++ [x]) = rev x ++ reversed_chars ps.
Proof.
  unfold reversed_chars. rewrite rev_app_distr. simpl. reflexivity.
Qed.

Lemma lstrip_spaces_app x r :
  forallb isspace x = true -> lstrip (x ++ r) = lstrip r.
Proof.
  induction x as [|c x IH]; simpl; [easy|].
  intros [-> Hx]%andb_prop. auto.
Qed.

(** Whitespace written last does not change the last non-space
    character. *)
Lemma last_non_space_char_ws ps x :
  forallb isspace x = true ->
  last_non_space_char (ps ++ [x]) = last_non_space_char ps.
Proof.
  intros H. unfold last_non_space_char.
  rewrite reversed_chars_snoc, lstrip_spaces_app; [reflexivity|].
  rewrite forallb_forall in *. intros c Hc. apply H. now apply in_rev.
Qed.

Lemma last_non_space_char_one ps c :
  isspace c = false -> last_non_space_char (ps ++ [[c]]) = [c].
Proof.
  intros H. unfold last_non_space_char.
  rewrite reversed_chars_snoc. simpl. now rewrite H.
Qed.

Lemma spaces_are_space n : forallb isspace (spaces n) = true.
Proof. induction n as [|n IH]; simpl; [reflexivity | exact IH]. Qed.

(** X10. An opening bracket directly followed by a closing bracket is
    printed, in any state of the printer, as the opening bracket, a line
    break, the indentation of the inner level and the closing bracket: the
    pair is never written as two adjacent characters. *)
Lemma open_close_layout st o c :
  o = LBRACE \/ o = LBRACKET -> c = RBRACE \/ c = RBRACKET ->
  concat (pieces (print_punct [c] (print_punct [o] st)))
  = concat (pieces st)
    ++ (if str_eqb (last_non_space_char (pieces st)) [COLON]
        then [SPACE] else [])
    ++ [o] ++ [LF] ++ spaces ((indent st + 1) * indent_step) ++ [c]
  /\ indent (print_punct [c] (print_punct [o] st)) = indent st.
Proof.
  intros Ho Hc.
  set (st1 := if str_eqb (last_non_space_char (pieces st)) [COLON]
              then write [SPACE] st else st).
  assert (Hopen : print_punct [o] st
                  = write_newline_and_indent
                      {| pieces := pieces st1 ++ [[o]];
                         indent := indent st1 + 1 |})
    by (destruct Ho as [-> | ->]; reflexivity).
  assert (Hind : indent st1 = indent st)
    by (unfold st1; now destruct (str_eqb _ _)).
  assert (Hno : isspace o = false) by (destruct Ho as [-> | ->]; reflexivity).
  assert (Hin : str_in [o] (py "{[") = true)
    by (destruct Ho as [-> | ->]; reflexivity).
  set (st2 := print_punct [o] st) in *.
  assert (Hprev : last_non_space_char (pieces st2) = [o]).
  { rewrite Hopen. unfold write_newline_and_indent, write; simpl.
    rewrite last_non_space_char_ws by apply spaces_are_space.
    rewrite last_non_space_char_ws by reflexivity.
    now apply last_non_space_char_one. }
  assert (Hclose : print_punct [c] st2
                   = write [c] {| pieces := pieces st2;
                                  indent := Nat.max (indent st2 - 1) 0 |}).
  { unfold print_punct.
    replace (str_in [c] (py "{[")) with false
      by (destruct Hc as [-> | ->]; reflexivity).
    replace (str_in [c] (py "}]")) with true
      by (destruct Hc as [-> | ->]; reflexivity).
    cbn [pieces]. now rewrite Hprev, Hin. }
  rewrite Hclose, Hopen. unfold write_newline_and_indent, write; simpl.
  rewrite Hind. split; [|lia].
  rewrite !concat_app; simpl. rewrite !app_nil_r. unfold st1.
  destruct (str_eqb _ _); unfold write; simpl;
    rewrite ?concat_app; simpl; rewrite ?app_nil_r, <- ?app_assoc;
    reflexivity.
Qed.

(** ** Shapes of the tokens *)

Lemma span_all p s : forallb p (fst (span p s)) = true.
Proof. exact (proj1 (span_run p s)). Qed.

Lemma scan_literal_chars s :
  forallb literal_char (fst (scan_literal s)) = true.
Proof.
  induction s as [|c s IH]; simpl; [reflexivity|].
  destruct (isspace c) eqn:E1; [reflexivity|].
  destruct (char_in c punctuation) eqn:E2; [reflexivity|].
  destruct ((c =? SLASH)%N && (nxt_is s SLASH || nxt_is s STAR));
    [reflexivity|].
  destruct (is_quote c) eqn:E3; [reflexivity|].
  destruct (scan_literal s) as [a b]; simpl in *.
  unfold literal_char at 1. now rewrite E1, E2, E3, IH.
Qed.

(** The token of one round has the shape of its kind. *)
Lemma next_token_shape ch rest :
  token_shape (fst (next_token ch rest)) = true.
Proof.
  unfold next_token.
  destruct (isspace ch) eqn:Ews.
  { pose proof (span_all isspace rest) as H.
    destruct (span isspace rest) as [ws r]; simpl in *.
    unfold token_shape; simpl. now rewrite Ews. }
  destruct (is_quote ch) eqn:Eq.
  { destruct (scan_string ch false rest) as [body r]; simpl.
    unfold token_shape; simpl. exact Eq. }
  assert (Hlast :
    token_shape
      (fst (if char_in ch punctuation then (Token Kpunct [ch], rest)
            else let (body, r) := scan_literal rest in
                 (Token Kliteral (ch :: body), r))) = true).
  { destruct (char_in ch punctuation) eqn:Ep; [exact Ep|].
    pose proof (scan_literal_chars rest) as H.
    destruct (scan_literal rest) as [body r]; simpl in *.
    unfold token_shape; simpl. unfold literal_char at 1.
    now rewrite Ews, Ep, Eq. }
  destruct (N.eqb_spec ch SLASH) as [->|Hne]; [|exact Hlast].
  cbn [andb].
  destruct (nxt_is rest SLASH) eqn:E1.
  { pose proof (span_all (fun c => negb (is_eol c)) (tl rest)) as H.
    destruct (span (fun c => negb (is_eol c)) (tl rest)) as [body r].
    simpl in *. unfold token_shape; simpl. now rewrite H. }
  destruct (nxt_is rest STAR) eqn:E2; [|exact Hlast].
  destruct (scan_block (tl rest)) as [body r]; reflexivity.
Qed.

Lemma tokenize_loop_shape : forall fuel src,
  forallb token_shape (tokenize_loop fuel src) = true.
Proof.
  induction fuel as [|fuel IH]; intros [|ch rest]; simpl; try reflexivity.
  pose proof (next_token_shape ch rest) as H.
  destruct (next_token ch rest) as [tok r]; simpl in *.
  now rewrite H, IH.
Qed.

(** X1. Every token the tokenizer produces is non-empty and has the shape
    of its kind: a whitespace token is a run of whitespace, a punctuation
    token is exactly one of the six structural characters, a string token
    starts with a quote, a comment token starts with // and holds no line
    terminator or starts with /*, and a literal token holds no whitespace,
    no structural character and no quote. *)
Theorem tokens_well_shaped (src : str) :
  forallb token_shape (_tokenize_json_with_comments src) = true.
Proof. apply tokenize_loop_shape. Qed.

(** ** Whitespace and literal runs are maximal *)

Lemma next_token_kind ch rest :
  kind (fst (next_token ch rest)) = round_kind ch rest.
Proof.
  unfold next_token, round_kind.
  destruct (isspace ch); [now destruct (span isspace rest)|].
  destruct (is_quote ch); [now destruct (scan_string ch false rest)|].
  destruct (ch =? SLASH)%N; cbn [andb].
  - destruct (nxt_is rest SLASH); cbn [orb];
      [now destruct (span _ (tl rest))|].
    destruct (nxt_is rest STAR); [now destruct (scan_block (tl rest))|].
    destruct (char_in ch punctuation); [reflexivity|].
    now destruct (scan_literal rest).
  - destruct (char_in ch punctuation); [reflexivity|].
    now destruct (scan_literal rest).
Qed.

(** Where the literal loop stops, no literal can start. *)
Lemma scan_literal_stops s :
  match snd (scan_literal s) with
  | [] => True
  | c :: s' => round_kind c s' <> Kliteral
  end.
Proof.
  induction s as [|c s IH]; simpl; [exact I|].
  destruct (isspace c) eqn:E1.
  { simpl. unfold round_kind. now rewrite E1. }
  destruct (char_in c punctuation) eqn:E2.
  { simpl. unfold round_kind. rewrite E1.
    destruct (is_quote c); [discriminate|].
    destruct ((c =? SLASH)%N && _); [discriminate|]. now rewrite E2. }
  destruct ((c =? SLASH)%N && (nxt_is s SLASH || nxt_is s STAR)) eqn:E3.
  { simpl. unfold round_kind. rewrite E1.
    destruct (is_quote c); [discriminate|]. now rewrite E3. }
  destruct (is_quote c) eqn:E4.
  { simpl. unfold round_kind. now rewrite E1, E4. }
  destruct (scan_literal s) as [a b]; exact IH.
Qed.

Lemma tokenize_loop_first fuel src :
  first_kind (tokenize_loop fuel src) = None
  \/ exists ch rest,
       src = ch :: rest
       /\ first_kind (tokenize_loop fuel src) = Some (round_kind ch rest).
Proof.
  destruct fuel as [|fuel], src as [|ch rest]; simpl; auto.
  right. exists ch, rest. split; [reflexivity|].
  rewrite <- next_token_kind. now destruct (next_token ch rest).
Qed.

(** After a round, the next token is not of the same kind when the kind
    is whitespace or literal. *)
Lemma next_token_then fuel ch rest :
  match kind (fst (next_token ch rest)) with
  | Kws =>
      first_kind (tokenize_loop fuel (snd (next_token ch rest))) <> Some Kws
  | Kliteral =>
      first_kind (tokenize_loop fuel (snd (next_token ch rest)))
      <> Some Kliteral
  | _ => True
  end.
Proof.
  rewrite next_token_kind. unfold next_token, round_kind.
  destruct (isspace ch) eqn:Ews.
  { destruct (span_run isspace rest) as [_ Hstop].
    destruct (span isspace rest) as [ws r]; simpl in *.
    destruct (tokenize_loop_first fuel r)
      as [-> | (c & s & -> & ->)]; [discriminate|].
    simpl in Hstop. unfold round_kind. rewrite Hstop.
    destruct (is_quote c); [discriminate|].
    destruct ((c =? SLASH)%N && _); [discriminate|].
    destruct (char_in c punctuation); discriminate. }
  destruct (is_quote ch); [exact I|].
  assert (Hlit :
    first_kind
      (tokenize_loop fuel
         (snd (let (body, r) := scan_literal rest in
               (Token Kliteral (ch :: body), r)))) <> Some Kliteral).
  { pose proof (scan_literal_stops rest) as Hstop.
    destruct (scan_literal rest) as [body r]; simpl in *.
    destruct (tokenize_loop_first fuel r)
      as [-> | (c & s & -> & ->)]; [discriminate|].
    now intros [= H]. }
  destruct (ch =? SLASH)%N; cbn [andb].
  - destruct (nxt_is rest SLASH); cbn [orb]; [exact I|].
    destruct (nxt_is rest STAR); [exact I|].
    destruct (char_in ch punctuation); [exact I | exact Hlit].
  - destruct (char_in ch punctuation); [exact I | exact Hlit].
Qed.

Lemma tokenize_loop_maximal : forall fuel src,
  runs_maximal (tokenize_loop fuel src) = true.
Proof.
  induction fuel as [|fuel IH]; intros [|ch rest]; simpl; try reflexivity.
  pose proof (next_token_then fuel ch rest) as H.
  specialize (IH (snd (next_token ch rest))).
  destruct (next_token ch rest) as [tok r]; simpl in *.
  destruct (kind tok); try exact IH;
    destruct (tokenize_loop fuel r) as [|[k v] ts]; try exact IH;
    destruct k; try exact IH; now simpl in H.
Qed.

(** X2. Whitespace and literal tokens are maximal runs: in the token list
    of any input, a whitespace token is never followed by a whitespace
    token, and a literal token is never followed by a literal token. *)
Theorem tokens_runs_maximal (src : str) :
  runs_maximal (_tokenize_json_with_comments src) = true.
Proof. apply tokenize_loop_maximal. Qed.

(** ** The printer rewrites whitespace only *)

Lemma fold_print_without_ws : forall tokens st,
  fold_left print_token (without_ws tokens) st
  = fold_left print_token tokens st.
Proof.
  induction tokens as [|[k v] tokens IH]; intros st; [reflexivity|].
  destruct k; simpl; apply IH.
Qed.

(** X8. The whitespace tokens have no influence on the printed text:
    printing a token list and printing it without its whitespace tokens
    give the same text. *)
Theorem printer_ignores_whitespace (tokens : list _Token)
    (newline_at_end : bool) :
  _pretty_print_tokens_with_comments (without_ws tokens) newline_at_end
  = _pretty_print_tokens_with_comments tokens newline_at_end.
Proof.
  unfold _pretty_print_tokens_with_comments.
  now rewrite fold_print_without_ws.
Qed.

Lemma nonspace_app x y : nonspace (x ++ y) = nonspace x ++ nonspace y.
Proof. apply filter_app. Qed.

Lemma nonspace_ws x : forallb isspace x = true -> nonspace x = [].
Proof.
  induction x as [|c x IH]; simpl; [reflexivity|].
  intros [-> H]%andb_prop. simpl. auto.
Qed.

Lemma nonspace_lstrip s : nonspace (lstrip s) = nonspace s.
Proof.
  induction s as [|c s IH]; simpl; [reflexivity|].
  destruct (isspace c) eqn:E; simpl; [exact IH | now rewrite E].
Qed.

Lemma nonspace_rstrip s : nonspace (rstrip s) = nonspace s.
Proof.
  unfold rstrip. unfold nonspace at 1. rewrite filter_rev.
  change (filter (fun c => negb (isspace c)) (lstrip (rev s)))
    with (nonspace (lstrip (rev s))).
  rewrite nonspace_lstrip. unfold nonspace.
  now rewrite filter_rev, rev_involutive.
Qed.

Lemma nonspace_strip s : nonspace (strip s) = nonspace s.
Proof. unfold strip. now rewrite nonspace_rstrip, nonspace_lstrip. Qed.

Lemma nonspace_spaces n : nonspace (spaces n) = [].
Proof. apply nonspace_ws, spaces_are_space. Qed.

(** The lines of [splitlines], put together again, are the text. *)
Lemma concat_splitlines_le : forall n s,
  length s <= n -> concat (splitlines s) = s.
Proof.
  induction n as [|n IH]; intros [|c s] Hlen; simpl in *;
    try reflexivity; try lia.
  destruct (is_linebreak c).
  - destruct s as [|d s'']; [reflexivity|].
    destruct ((c =? CR)%N && (d =? LF)%N); simpl.
    + rewrite IH by (simpl in *; lia). reflexivity.
    + f_equal. apply (IH (d :: s'')). simpl in *; lia.
  - specialize (IH s ltac:(lia)).
    destruct (splitlines s) as [|l ls]; simpl in *; now rewrite <- IH.
Qed.

Lemma concat_splitlines s : concat (splitlines s) = s.
Proof. now apply concat_splitlines_le with (n := length s). Qed.

Lemma buffer_write text st : buffer (write text st) = buffer st ++ text.
Proof.
  unfold buffer, write; simpl. rewrite concat_app; simpl.
  now rewrite app_nil_r.
Qed.

Lemma nonspace_write text st :
  nonspace (buffer (write text st))
  = nonspace (buffer st) ++ nonspace text.
Proof. now rewrite buffer_write, nonspace_app. Qed.

Lemma nonspace_newline st :
  nonspace (buffer (write_newline_and_indent st)) = nonspace (buffer st).
Proof.
  unfold write_newline_and_indent.
  rewrite !nonspace_write, nonspace_spaces. simpl.
  now rewrite !app_nil_r.
Qed.

Lemma strip_trailing_rev_nonspace : forall rps,
  nonspace (concat (rev (strip_trailing_rev rps)))
  = nonspace (concat (rev rps)).
Proof.
  induction rps as [|part rest IH]; [reflexivity|].
  cbn [strip_trailing_rev].
  destruct (rstrip part) as [|c kept] eqn:E.
  - rewrite IH. cbn [rev]. rewrite concat_app, nonspace_app. cbn [concat].
    rewrite app_nil_r, <- (nonspace_rstrip part), E.
    symmetry. apply app_nil_r.
  - destruct (length (c :: kept) =? length part); [reflexivity|].
    cbn [rev]. rewrite !concat_app, !nonspace_app. cbn [concat].
    rewrite !app_nil_r. f_equal. now rewrite <- E, nonspace_rstrip.
Qed.

Lemma nonspace_strip_trailing st :
  nonspace (buffer (strip_trailing_whitespace st)) = nonspace (buffer st).
Proof.
  unfold buffer, strip_trailing_whitespace; simpl.
  now rewrite strip_trailing_rev_nonspace, rev_involutive.
Qed.

Lemma nonspace_write_lines : forall lines first st,
  nonspace (buffer (write_lines first lines st))
  = nonspace (buffer st) ++ nonspace (concat lines).
Proof.
  induction lines as [|line lines IH]; intros first st; simpl.
  - now rewrite app_nil_r.
  - rewrite IH, nonspace_write, nonspace_app, app_assoc. f_equal. f_equal.
    destruct first; [reflexivity|].
    now rewrite nonspace_write, nonspace_spaces, app_nil_r.
Qed.

(** Each branch of the printer adds the non-whitespace characters of the
    token and nothing else that is not whitespace. *)
Lemma nonspace_print_comment val st :
  nonspace (buffer (print_comment val st))
  = nonspace (buffer st) ++ nonspace val.
Proof.
  unfold print_comment. cbv zeta.
  destruct (_ && _ && _).
  - now rewrite nonspace_newline, !nonspace_write, nonspace_strip_trailing,
      nonspace_strip, app_nil_r.
  - match goal with
    | |- context [write_lines true _ ?x] => set (st1 := x)
    end.
    assert (H1 : nonspace (buffer st1) = nonspace (buffer st))
      by (unfold st1; destruct (_ || _);
          [apply nonspace_newline | reflexivity]).
    match goal with
    | |- context [if ?b then write [LF] _ else _] => destruct b
    end;
      rewrite ?nonspace_write, nonspace_write_lines, concat_splitlines, H1;
      simpl; now rewrite ?app_nil_r.
Qed.

Lemma nonspace_print_value val st :
  nonspace (buffer (print_value val st))
  = nonspace (buffer st) ++ nonspace val.
Proof.
  unfold print_value. rewrite nonspace_write. f_equal.
  destruct (negb (at_line_start (pieces st))); [|reflexivity].
  destruct (_ && _); [|reflexivity].
  rewrite nonspace_write. simpl. now rewrite app_nil_r.
Qed.

Lemma punctuation_cases c :
  char_in c punctuation = true ->
  c = LBRACE \/ c = RBRACE \/ c = LBRACKET \/ c = RBRACKET
  \/ c = COLON \/ c = COMMA.
Proof.
  change punctuation
    with [LBRACE; RBRACE; LBRACKET; RBRACKET; COLON; COMMA].
  unfold char_in. cbn [existsb].
  rewrite !orb_true_iff, !N.eqb_eq. intuition discriminate.
Qed.

Lemma nonspace_print_punct c st :
  char_in c punctuation = true ->
  nonspace (buffer (print_punct [c] st)) = nonspace (buffer st) ++ [c].
Proof.
  intros H. apply punctuation_cases in H.
  set (st0 := if str_eqb (last_non_space_char (pieces st)) [COLON]
              then write [SPACE] st else st).
  assert (H0 : nonspace (buffer st0) = nonspace (buffer st)).
  { unfold st0. destruct (str_eqb _ _); [|reflexivity].
    rewrite nonspace_write. simpl. now rewrite app_nil_r. }
  set (st1 := {| pieces := pieces st;
                 indent := Nat.max (indent st - 1) 0 |}).
  assert (Hopen : c = LBRACE \/ c = LBRACKET ->
            print_punct [c] st
            = write_newline_and_indent
                {| pieces := pieces (write [c] st0);
                   indent := indent (write [c] st0) + 1 |})
    by (intros [-> | ->]; reflexivity).
  assert (Hclose : c = RBRACE \/ c = RBRACKET ->
            print_punct [c] st
            = if str_in (last_non_space_char (pieces st1)) (py "{[")
              then write [c] st1
              else write [c] (write_newline_and_indent st1))
    by (intros [-> | ->]; reflexivity).
  assert (Hbuf : forall ps n m,
            buffer {| pieces := ps; indent := n |}
            = buffer {| pieces := ps; indent := m |}) by reflexivity.
  destruct H as [H | [H | [H | [H | [-> | ->]]]]].
  - rewrite Hopen by auto. rewrite nonspace_newline.
    rewrite (Hbuf _ _ (indent (write [c] st0))).
    change {| pieces := pieces (write [c] st0);
              indent := indent (write [c] st0) |} with (write [c] st0).
    rewrite nonspace_write, H0. now subst c.
  - rewrite Hclose by auto. destruct (str_in _ _);
      rewrite ?nonspace_write, ?nonspace_newline; now subst c.
  - rewrite Hopen by auto. rewrite nonspace_newline.
    rewrite (Hbuf _ _ (indent (write [c] st0))).
    change {| pieces := pieces (write [c] st0);
              indent := indent (write [c] st0) |} with (write [c] st0).
    rewrite nonspace_write, H0. now subst c.
  - rewrite Hclose by auto. destruct (str_in _ _);
      rewrite ?nonspace_write, ?nonspace_newline; now subst c.
  - change (print_punct [COLON] st) with (write [COLON; SPACE] st).
    now rewrite nonspace_write.
  - change (print_punct [COMMA] st)
      with (write_newline_and_indent (write [COMMA] st)).
    now rewrite nonspace_newline, nonspace_write.
Qed.

Lemma punctuation_not_space c :
  char_in c punctuation = true -> isspace c = false.
Proof.
  intros H. apply punctuation_cases in H.
  now destruct H as [-> | [-> | [-> | [-> | [-> | ->]]]]].
Qed.

Lemma nonspace_print_token st tok :
  token_shape tok = true ->
  nonspace (buffer (print_token st tok))
  = nonspace (buffer st) ++ nonspace (value tok).
Proof.
  destruct tok as [k v]. unfold token_shape, print_token; simpl.
  destruct k, v as [|c v]; try discriminate; intros H.
  - apply nonspace_print_value.
  - apply nonspace_print_value.
  - destruct v; [|discriminate]. rewrite nonspace_print_punct by exact H.
    unfold nonspace; simpl. now rewrite (punctuation_not_space _ H).
  - apply nonspace_print_comment.
  - rewrite (nonspace_ws (c :: v) H). now rewrite app_nil_r.
Qed.

Lemma nonspace_print_tokens : forall tokens st,
  forallb token_shape tokens = true ->
  nonspace (buffer (fold_left print_token tokens st))
  = nonspace (buffer st) ++ nonspace (token_text tokens).
Proof.
  induction tokens as [|tok tokens IH]; intros st; simpl.
  - now rewrite app_nil_r.
  - intros [H1 H2]%andb_prop. rewrite (IH _ H2).
    rewrite (nonspace_print_token _ _ H1).
    unfold token_text; simpl. now rewrite nonspace_app, app_assoc.
Qed.

(** X9. Formatting changes whitespace only: for every input and every
    validator, the characters of the returned text that are not whitespace
    are those of the input, in the same order -- no character of a string,
    a literal, a comment or the punctuation is lost, added or moved. *)
Theorem format_preserves_nonspace (json_loads : str -> loads_outcome)
    (raw : str) :
  nonspace (fst (_format_json_with_comments json_loads raw)) = nonspace raw.
Proof.
  destruct (format_cases json_loads raw)
    as [[_ ->] | [(msg & _ & ->) | (msg & _ & ->)]]; try reflexivity.
  simpl. unfold _pretty_print_tokens_with_comments.
  assert (H : nonspace
                (rstrip
                   (buffer
                      (fold_left print_token
                         (_tokenize_json_with_comments raw)
                         {| pieces := []; indent := 0 |})))
              = nonspace raw).
  { rewrite nonspace_rstrip, nonspace_print_tokens
      by apply tokenize_loop_shape.
    unfold _tokenize_json_with_comments.
    now rewrite tokenize_loop_text. }
  destruct (endswith raw [LF]); [|exact H].
  rewrite nonspace_app. simpl. rewrite app_nil_r. exact H.
Qed.

(** ** The stripper, state by state *)

Lemma strip_normal_cons sd ch rest :
  strip_normal sd (ch :: rest)
  = if is_quote ch then ch :: strip_string [ch] false rest
    else if (ch =? SLASH)%N && nxt_is rest SLASH
    then strip_line sd (tl rest)
    else if (ch =? SLASH)%N && nxt_is rest STAR
    then strip_block sd (tl rest)
    else ch :: strip_normal sd rest.
Proof.
  unfold strip_normal, strip_string, strip_line, strip_block.
  destruct rest as [|nxt rest']; cbn [strip_loop nxt_is tl];
    [now rewrite !andb_false_r | reflexivity].
Qed.

Lemma strip_line_cons sd ch rest :
  strip_line sd (ch :: rest)
  = if is_eol ch then ch :: strip_normal sd rest else strip_line sd rest.
Proof. reflexivity. Qed.

Lemma strip_block_cons sd c d s :
  strip_block sd (c :: d :: s)
  = if (c =? STAR)%N && (d =? SLASH)%N then strip_normal sd s
    else strip_block sd (d :: s).
Proof. reflexivity. Qed.

Lemma strip_string_cons sd escape ch rest :
  strip_string sd escape (ch :: rest)
  = ch :: (if escape then strip_string sd false rest
           else if (ch =? BACKSLASH)%N then strip_string sd true rest
           else if str_eqb [ch] sd then strip_normal sd rest
           else strip_string sd false rest).
Proof. reflexivity. Qed.

Lemma strip_normal_delim sd sd' s : strip_normal sd s = strip_normal sd' s.
Proof. apply strip_loop_delim_unread with (n := length s). lia. Qed.

(** A character that is neither a quote nor a slash is copied. *)
Lemma strip_normal_plain sd ch rest :
  is_quote ch = false -> ch <> SLASH ->
  strip_normal sd (ch :: rest) = ch :: strip_normal sd rest.
Proof.
  intros Hq Hs%N.eqb_neq. now rewrite strip_normal_cons, Hq, Hs.
Qed.

Lemma is_eol_plain c : is_eol c = true -> is_quote c = false /\ c <> SLASH.
Proof.
  unfold is_eol. intros [->%N.eqb_eq | ->%N.eqb_eq]%orb_prop; easy.
Qed.

Lemma isspace_plain c : isspace c = true -> is_quote c = false /\ c <> SLASH.
Proof.
  intros H%isspace_ranges. split.
  - unfold is_quote, SQUOTE, DQUOTE.
    apply orb_false_iff; split; apply N.eqb_neq; lia.
  - unfold SLASH; lia.
Qed.

(** ** Stripping twice *)

(** After a slash that opens no comment, the stripped rest starts with no
    slash and no star. *)
Lemma strip_normal_head sd rest c :
  nxt_is rest SLASH = false -> nxt_is rest STAR = false ->
  c = SLASH \/ c = STAR ->
  nxt_is (strip_normal sd rest) c = false.
Proof.
  intros H1 H2 Hc. destruct rest as [|x r]; [reflexivity|].
  unfold nxt_is in H1, H2. rewrite strip_normal_cons.
  unfold nxt_is at 1 2. rewrite H1. cbn [andb].
  assert (Hx : (x =? c)%N = false) by (destruct Hc as [-> | ->]; easy).
  destruct (is_quote x); [exact Hx|]. exact Hx.
Qed.

(** Stripping what was stripped, from the state where the first pass
    began, changes nothing. *)
Lemma strip_twice : forall n s, length s <= n ->
  (forall sd, strip_normal sd (strip_normal sd s) = strip_normal sd s)
  /\ (forall sd escape,
        strip_string sd escape (strip_string sd escape s)
        = strip_string sd escape s)
  /\ (forall sd, strip_normal sd (strip_line sd s) = strip_line sd s)
  /\ (forall sd, strip_normal sd (strip_block sd s) = strip_block sd s).
Proof.
  induction n as [|n IH]; intros [|ch rest] Hlen; simpl in Hlen;
    try lia; try (repeat split; reflexivity).
  assert (Hrest := IH rest ltac:(lia)).
  destruct Hrest as (IHn & IHs & IHl & IHb).
  assert (Htl := IH (tl rest)
                   ltac:(destruct rest; simpl in *; lia)).
  destruct Htl as (_ & _ & IHl' & IHb').
  split; [|split; [|split]].
  - intros sd. rewrite strip_normal_cons.
    destruct (is_quote ch) eqn:Eq.
    { rewrite strip_normal_cons, Eq. now rewrite IHs. }
    destruct ((ch =? SLASH)%N && nxt_is rest SLASH) eqn:E1; [apply IHl'|].
    destruct ((ch =? SLASH)%N && nxt_is rest STAR) eqn:E2; [apply IHb'|].
    rewrite strip_normal_cons, Eq.
    destruct (N.eqb_spec ch SLASH) as [->|Hne]; cbn [andb] in *.
    + rewrite !strip_normal_head by auto. now rewrite IHn.
    + now rewrite IHn.
  - intros sd escape. rewrite strip_string_cons.
    rewrite strip_string_cons. f_equal.
    destruct escape; [apply IHs|].
    destruct (ch =? BACKSLASH)%N; [apply IHs|].
    destruct (str_eqb [ch] sd); [apply IHn | apply IHs].
  - intros sd. rewrite strip_line_cons.
    destruct (is_eol ch) eqn:E; [|apply IHl].
    destruct (is_eol_plain _ E) as [Hq Hs].
    now rewrite strip_normal_plain, IHn.
  - intros sd. destruct rest as [|d s]; [reflexivity|].
    rewrite strip_block_cons.
    destruct ((ch =? STAR)%N && (d =? SLASH)%N); [|apply IHb].
    destruct (IH s ltac:(simpl in *; lia)) as (H & _). apply H.
Qed.

(** X3. Stripping is idempotent: the stripped text holds no comment any
    more, so stripping it again gives it back unchanged. *)
Theorem strip_idempotent (src : str) :
  _strip_json_comments (_strip_json_comments src)
  = _strip_json_comments src.
Proof.
  exact (proj1 (strip_twice (length src) src (le_n _)) []).
Qed.

(** ** Text without comments *)

Lemma startswith_pair s a b :
  startswith s [a; b]
  = match s with
    | c :: rest => (a =? c)%N && nxt_is rest b
    | [] => false
    end.
Proof.
  destruct s as [|c [|d s]]; cbn [startswith nxt_is]; try reflexivity.
  now rewrite andb_true_r, (N.eqb_sym b).
Qed.

Lemma no_opener_cons a b ch rest :
  str_in [a; b] (ch :: rest) = false ->
  (ch =? a)%N && nxt_is rest b = false /\ str_in [a; b] rest = false.
Proof.
  intros [H1 H2]%str_in_cons. split; [|exact H2].
  rewrite startswith_pair in H1. now rewrite N.eqb_sym.
Qed.

Lemma strip_no_comment : forall s,
  str_in (py "//") s = false -> str_in (py "/*") s = false ->
  (forall sd, strip_normal sd s = s)
  /\ (forall sd escape, strip_string sd escape s = s).
Proof.
  induction s as [|ch rest IH]; intros H1 H2; [split; reflexivity|].
  apply (no_opener_cons SLASH SLASH) in H1 as [H1 H1'].
  apply (no_opener_cons SLASH STAR) in H2 as [H2 H2'].
  destruct (IH H1' H2') as [IHn IHs]. split.
  - intros sd. rewrite strip_normal_cons, H1, H2.
    destruct (is_quote ch); now rewrite ?IHs, ?IHn.
  - intros sd escape. rewrite strip_string_cons. f_equal.
    destruct escape; [apply IHs|].
    destruct (ch =? BACKSLASH)%N; [apply IHs|].
    destruct (str_eqb [ch] sd); [apply IHn | apply IHs].
Qed.

(** X4. A text in which neither // nor /* occurs anywhere is returned
    unchanged by the stripper, quotes and backslashes included. *)
Theorem strip_without_openers (src : str) :
  str_in (py "//") src = false -> str_in (py "/*") src = false ->
  _strip_json_comments src = src.
Proof.
  intros H1 H2. exact (proj1 (strip_no_comment src H1 H2) []).
Qed.

(** A JSON text with a slash, an escaped quote and single stars. *)
Lemma strip_without_openers_witness :
  _strip_json_comments (py "{'a/b': 'it\'s', 'c': [1, 2*3]}")
  = py "{'a/b': 'it\'s', 'c': [1, 2*3]}".
Proof.
  apply (strip_without_openers (py "{'a/b': 'it\'s', 'c': [1, 2*3]}"));
    reflexivity.
Defined.

(** ** What becomes of a comment *)

(** A line comment is dropped up to its terminator, which stays. *)
Lemma strip_line_body sd : forall body rest,
  forallb (fun c => negb (is_eol c)) body = true ->
  stops (fun c => negb (is_eol c)) rest ->
  strip_line sd (body ++ rest) = strip_normal sd rest.
Proof.
  induction body as [|c body IH]; intros rest Hb Hr.
  - destruct rest as [|c rest]; [reflexivity|]. simpl in Hr.
    apply negb_false_iff in Hr. rewrite app_nil_l, strip_line_cons, Hr.
    destruct (is_eol_plain _ Hr). now rewrite strip_normal_plain.
  - simpl in Hb. apply andb_prop in Hb as [Hc Hb].
    apply negb_true_iff in Hc.
    change ((c :: body) ++ rest) with (c :: body ++ rest).
    rewrite strip_line_cons, Hc. now apply IH.
Qed.

(** In a block comment everything is dropped up to and with the closing
    delimiter, or up to the end of the input when there is none. *)
Lemma strip_block_closed sd : forall body rest,
  str_in (py "*/") body = false ->
  strip_block sd (body ++ py "*/" ++ rest) = strip_normal sd rest.
Proof.
  induction body as [|c body IH]; intros rest H; [reflexivity|].
  apply str_in_cons in H as [H1 H2]. specialize (IH rest H2).
  destruct body as [|d body].
  - change (strip_block sd (c :: STAR :: SLASH :: rest)
            = strip_normal sd rest).
    rewrite strip_block_cons.
    change (STAR =? SLASH)%N with false. now rewrite andb_false_r.
  - change (strip_block sd (c :: d :: body ++ py "*/" ++ rest)
            = strip_normal sd rest).
    now rewrite strip_block_cons, <- startswith_close with (s := body), H1.
Qed.

Lemma strip_block_open sd : forall body,
  str_in (py "*/") body = false -> strip_block sd body = [].
Proof.
  induction body as [|c body IH]; intros H; [reflexivity|].
  apply str_in_cons in H as [H1 H2]. specialize (IH H2).
  destruct body as [|d body]; [reflexivity|].
  now rewrite strip_block_cons, <- startswith_close with (s := body), H1.
Qed.

(** X5. What the stripper does with a comment that starts where it is
    outside strings and comments: of a line comment it drops everything up
    to the line terminator and keeps the terminator and what follows; a
    block comment it drops with both delimiters; of a block comment that
    is never closed it drops everything to the end of the input. *)
Theorem strip_comment (body rest : str) :
  (forallb (fun c => negb (is_eol c)) body = true ->
   stops (fun c => negb (is_eol c)) rest ->
   _strip_json_comments (py "//" ++ body ++ rest)
   = _strip_json_comments rest)
  /\ (str_in (py "*/") body = false ->
      _strip_json_comments (py "/*" ++ body ++ py "*/" ++ rest)
      = _strip_json_comments rest)
  /\ (str_in (py "*/") body = false ->
      _strip_json_comments (py "/*" ++ body) = []).
Proof.
  split; [|split].
  - intros Hb Hr.
    change (strip_normal [] (SLASH :: SLASH :: body ++ rest)
            = strip_normal [] rest).
    rewrite strip_normal_cons. cbn. now apply strip_line_body.
  - intros H.
    change (strip_normal [] (SLASH :: STAR :: body ++ py "*/" ++ rest)
            = strip_normal [] rest).
    rewrite strip_normal_cons. cbn. now apply strip_block_closed.
  - intros H.
    change (strip_normal [] (SLASH :: STAR :: body) = []).
    rewrite strip_normal_cons. cbn. now apply strip_block_open.
Qed.

(** A line comment before a line feed and a number, and a block comment
    with a star and a slash inside. *)
Lemma strip_comment_witness :
  _strip_json_comments (py "//" ++ py " note" ++ LF :: py "1")
  = _strip_json_comments (LF :: py "1")
  /\ _strip_json_comments (py "/*" ++ py " a * b / c " ++ py "*/" ++ py "1")
     = _strip_json_comments (py "1")
  /\ _strip_json_comments (py "/*" ++ py " a * b / c ") = [].
Proof.
  split; [|split].
  - apply (proj1 (strip_comment (py " note") (LF :: py "1")));
      reflexivity.
  - apply (proj1 (proj2 (strip_comment (py " a * b / c ") (py "1")))).
    reflexivity.
  - apply (proj2 (proj2 (strip_comment (py " a * b / c ") []))).
    reflexivity.
Defined.

(** ** Line terminators *)

Lemma strip_keeps_eol : forall n s, length s <= n ->
  str_in (py "/*") s = false ->
  (forall sd, filter is_eol (strip_normal sd s) = filter is_eol s)
  /\ (forall sd escape,
        filter is_eol (strip_string sd escape s) = filter is_eol s)
  /\ (forall sd, filter is_eol (strip_line sd s) = filter is_eol s).
Proof.
  induction n as [|n IH]; intros [|ch rest] Hlen H; simpl in Hlen;
    try lia; try (repeat split; reflexivity).
  apply (no_opener_cons SLASH STAR) in H as [H H'].
  destruct (IH rest ltac:(lia) H') as (IHn & IHs & IHl).
  split; [|split].
  - intros sd. rewrite strip_normal_cons, H.
    destruct (is_quote ch); [cbn [filter]; now rewrite IHs|].
    destruct ((ch =? SLASH)%N && nxt_is rest SLASH) eqn:E;
      [|cbn [filter]; now rewrite IHn].
    apply andb_prop in E as [->%N.eqb_eq E].
    apply nxt_is_cons in E. destruct rest as [|x r]; [discriminate|].
    simpl in E. injection E as ->.
    apply (no_opener_cons SLASH STAR) in H' as [_ H''].
    destruct (IH r ltac:(simpl in *; lia) H'') as (_ & _ & IHl').
    cbn [tl]. rewrite IHl'. reflexivity.
  - intros sd escape. rewrite strip_string_cons. cbn [filter].
    assert (Hrec :
      filter is_eol
        (if escape then strip_string sd false rest
         else if (ch =? BACKSLASH)%N then strip_string sd true rest
         else if str_eqb [ch] sd then strip_normal sd rest
         else strip_string sd false rest) = filter is_eol rest).
    { destruct escape; [apply IHs|].
      destruct (ch =? BACKSLASH)%N; [apply IHs|].
      destruct (str_eqb [ch] sd); [apply IHn | apply IHs]. }
    destruct (is_eol ch); now rewrite Hrec.
  - intros sd. rewrite strip_line_cons. cbn [filter].
    destruct (is_eol ch) eqn:E; [|apply IHl].
    cbn [filter]. now rewrite E, IHn.
Qed.

(** X7. In a text without the block-comment opener /*, stripping keeps
    every line feed and carriage return, in order: the stripped text has
    the same line breaks as the original, so a line number of the
    validator is a line number of the original text. *)
Theorem strip_keeps_line_breaks (src : str) :
  str_in (py "/*") src = false ->
  filter is_eol (_strip_json_comments src) = filter is_eol src.
Proof.
  intros H.
  exact (proj1 (strip_keeps_eol (length src) src (le_n _) H) []).
Qed.

(** Two lines with line comments, one of them after a value. *)
Lemma strip_keeps_line_breaks_witness :
  filter is_eol
    (_strip_json_comments
       (py "// head" ++ LF :: py "[1, // one" ++ CR :: LF :: py "2]"))
  = filter is_eol
      (py "// head" ++ LF :: py "[1, // one" ++ CR :: LF :: py "2]").
Proof.
  apply (strip_keeps_line_breaks
           (py "// head" ++ LF :: py "[1, // one" ++ CR :: LF :: py "2]")).
  reflexivity.
Defined.

(** ** The stripper and the tokenizer agree *)

(** Each inner loop of the tokenizer consumes what the stripper copies or
    drops in the matching state. *)
Lemma strip_string_scan d : forall s escape,
  strip_string [d] escape s
  = fst (scan_string d escape s)
    ++ strip_normal [d] (snd (scan_string d escape s)).
Proof.
  induction s as [|c s IH]; intros escape; [now destruct escape|].
  rewrite strip_string_cons. cbn [scan_string str_eqb].
  rewrite andb_true_r.
  destruct escape.
  { rewrite IH. now destruct (scan_string d false s). }
  destruct (c =? BACKSLASH)%N.
  { rewrite IH. now destruct (scan_string d true s). }
  destruct (c =? d)%N; [reflexivity|].
  rewrite IH. now destruct (scan_string d false s).
Qed.

Lemma strip_line_span sd : forall s,
  strip_line sd s
  = strip_normal sd (snd (span (fun c => negb (is_eol c)) s)).
Proof.
  induction s as [|c s IH]; [reflexivity|].
  rewrite strip_line_cons. cbn [span].
  destruct (is_eol c) eqn:E; cbn [negb snd].
  - destruct (is_eol_plain _ E). now rewrite strip_normal_plain.
  - rewrite IH. now destruct (span _ s).
Qed.

Lemma scan_block_head d s :
  match fst (scan_block (d :: s)) with
  | [] => True
  | x :: _ => x = d
  end.
Proof.
  destruct s as [|e s]; [exact I|]. rewrite scan_block_cons.
  destruct (_ && _); [reflexivity|]. now destruct (scan_block (e :: s)).
Qed.

Lemma strip_block_scan sd : forall s,
  str_in (py "*/") (fst (scan_block s)) = true ->
  strip_block sd s = strip_normal sd (snd (scan_block s)).
Proof.
  induction s as [|c s IH]; [discriminate|].
  destruct s as [|d s]; [discriminate|].
  rewrite scan_block_cons, strip_block_cons.
  destruct ((c =? STAR)%N && (d =? SLASH)%N) eqn:E; [reflexivity|].
  pose proof (scan_block_head d s) as Hhead.
  destruct (scan_block (d :: s)) as [a b]; cbn [fst snd] in *.
  cbn [str_in]. intros [H|H]%orb_prop; [|now apply IH].
  destruct a as [|x a].
  { change (py "*/") with [STAR; SLASH] in H. cbn [startswith] in H.
    now rewrite andb_false_r in H. }
  subst x. rewrite startswith_close in H. congruence.
Qed.

Lemma strip_normal_literal sd : forall s,
  strip_normal sd s
  = fst (scan_literal s) ++ strip_normal sd (snd (scan_literal s)).
Proof.
  induction s as [|c s IH]; [reflexivity|]. cbn [scan_literal].
  destruct (isspace c); [reflexivity|].
  destruct (char_in c punctuation); [reflexivity|].
  destruct ((c =? SLASH)%N && (nxt_is s SLASH || nxt_is s STAR)) eqn:E;
    [reflexivity|].
  destruct (is_quote c) eqn:Eq; [reflexivity|].
  rewrite strip_normal_cons, Eq.
  rewrite andb_orb_distrib_r in E. apply orb_false_elim in E as [-> ->].
  rewrite IH. now destruct (scan_literal s).
Qed.

Lemma strip_normal_ws sd : forall s,
  strip_normal sd s
  = fst (span isspace s) ++ strip_normal sd (snd (span isspace s)).
Proof.
  induction s as [|c s IH]; [reflexivity|]. cbn [span].
  destruct (isspace c) eqn:E; [|reflexivity].
  destruct (isspace_plain _ E). rewrite strip_normal_plain by assumption.
  rewrite IH. now destruct (span isspace s).
Qed.

(** One round of the tokenizer, seen by the stripper. *)
Lemma strip_round sd ch rest :
  comment_closed (fst (next_token ch rest)) = true ->
  strip_normal sd (ch :: rest)
  = kept_text (fst (next_token ch rest))
    ++ strip_normal sd (snd (next_token ch rest)).
Proof.
  unfold next_token.
  destruct (isspace ch) eqn:Ews.
  { intros _. destruct (isspace_plain _ Ews).
    rewrite strip_normal_plain by assumption.
    rewrite (strip_normal_ws sd rest). now destruct (span isspace rest). }
  destruct (is_quote ch) eqn:Eq.
  { intros _. rewrite strip_normal_cons, Eq, strip_string_scan.
    rewrite (strip_normal_delim [ch] sd).
    now destruct (scan_string ch false rest) as [body r]. }
  rewrite strip_normal_cons, Eq.
  destruct ((ch =? SLASH)%N && nxt_is rest SLASH).
  { intros _. rewrite strip_line_span. now destruct (span _ (tl rest)). }
  destruct ((ch =? SLASH)%N && nxt_is rest STAR).
  { pose proof (strip_block_scan sd (tl rest)) as H.
    destruct (scan_block (tl rest)) as [body r]. intros Hc.
    unfold comment_closed in Hc. cbn [fst kind value skipn] in Hc.
    change (py "//") with [SLASH; SLASH] in Hc.
    rewrite startswith_pair in Hc.
    change (nxt_is (STAR :: body) SLASH) with false in Hc.
    rewrite andb_false_r in Hc. exact (H Hc). }
  intros _. destruct (char_in ch punctuation); [reflexivity|].
  rewrite (strip_normal_literal sd rest). now destruct (scan_literal rest).
Qed.

Lemma strip_tokens : forall fuel src sd,
  length src <= fuel ->
  forallb comment_closed (tokenize_loop fuel src) = true ->
  strip_normal sd src
  = token_text (without_comments (tokenize_loop fuel src)).
Proof.
  induction fuel as [|fuel IH]; intros [|ch rest] sd Hlen; simpl in *;
    try reflexivity; try lia.
  destruct (next_token_splits ch rest) as [_ Hr].
  pose proof (strip_round sd ch rest) as Hround.
  destruct (next_token ch rest) as [[k v] r]; simpl in *.
  intros [H1 H2]%andb_prop. rewrite (Hround H1), (IH r sd) by (lia || easy).
  unfold kept_text, token_text; cbn [kind value].
  now destruct k.
Qed.

(** X6. When every block comment of the input is closed, the stripped
    text is the text of the tokens without the comment tokens: the text
    that is validated holds exactly the strings, literals, punctuation
    and whitespace that the printer is given, in order. *)
Theorem strip_is_tokens_without_comments (src : str) :
  forallb comment_closed (_tokenize_json_with_comments src) = true ->
  _strip_json_comments src
  = token_text (without_comments (_tokenize_json_with_comments src)).
Proof.
  intros H. now apply strip_tokens.
Qed.

(** An object with a line comment, a block comment and a string that
    holds both comment openers. *)
Lemma strip_is_tokens_without_comments_witness :
  _strip_json_comments
    (py "{'a//b': 1, // one" ++ LF :: py "'c/*d': /* two */ 2}")
  = token_text
      (without_comments
         (_tokenize_json_with_comments
            (py "{'a//b': 1, // one" ++ LF :: py "'c/*d': /* two */ 2}"))).
Proof.
  apply (strip_is_tokens_without_comments
           (py "{'a//b': 1, // one" ++ LF :: py "'c/*d': /* two */ 2}")).
  reflexivity.
Defined.

(** ** Messages of the standard form *)

(** [re.search] passes over a prefix none of whose positions has a
    match. *)
Lemma re_search_skip {A} (f : str -> option A) post : forall pre,
  (forall p1 p2, pre = p1 ++ p2 -> p2 <> [] -> f (p2 ++ post) = None) ->
  re_search f (pre ++ post) = re_search f post.
Proof.
  induction pre as [|c pre IH]; intros H; [reflexivity|].
  pose proof (H [] (c :: pre) eq_refl ltac:(discriminate)) as H0.
  change ((c :: pre) ++ post) with (c :: pre ++ post) in *.
  cbn [re_search]. rewrite H0.
  apply IH. intros p1 p2 -> Hne. now apply (H (c :: p1) p2).
Qed.

Lemma re_search_here {A} (f : str -> option A) s m :
  f s = Some m -> re_search f s = Some m.
Proof. intros H. destruct s; simpl; now rewrite H. Qed.

(** The first decimal digit of a text is where it is. *)
Lemma first_decimal_unique : forall a b x y r r',
  forallb (fun c => negb (is_decimal c)) a = true ->
  forallb (fun c => negb (is_decimal c)) b = true ->
  is_decimal x = true -> is_decimal y = true ->
  a ++ x :: r = b ++ y :: r' -> a = b.
Proof.
  induction a as [|c a IH]; intros [|d b] x y r r' Ha Hb Hx Hy E;
    simpl in *; try reflexivity.
  - injection E as -> _. apply andb_prop in Hb as [Hb _].
    now rewrite Hx in Hb.
  - injection E as -> _. apply andb_prop in Ha as [Ha _].
    now rewrite Hy in Ha.
  - injection E as -> E. apply andb_prop in Ha as [_ Ha].
    apply andb_prop in Hb as [_ Hb]. f_equal. eauto.
Qed.

Lemma decimal_zero_bounds z :
  In z decimal_zeros -> (z = 48 \/ 1632 <= z)%N.
Proof.
  simpl. intros H.
  repeat (destruct H as [<-|H]; [lia|]). destruct H.
Qed.

(** The letters that match a lower-case ASCII letter are no digits. *)
Lemma ci_letter_not_decimal p c :
  between 97%N 122%N p = true -> ci_match p c = true ->
  is_decimal c = false.
Proof.
  intros Hp Hc. destruct (is_decimal c) eqn:E; [exfalso|reflexivity].
  apply is_decimal_range in E as (z & Hz & Hzc).
  apply decimal_zero_bounds in Hz.
  unfold between in Hp. apply andb_prop in Hp as [Hp1 Hp2].
  apply N.leb_le in Hp1, Hp2.
  unfold ci_match, between in Hc.
  rewrite !orb_true_iff, !andb_true_iff, !N.leb_le, !N.eqb_eq in Hc.
  rewrite orb_true_iff, !N.eqb_eq in Hc. lia.
Qed.

Lemma ci_word_not_decimal pat w :
  forallb (between 97%N 122%N) pat = true -> ci_word pat w ->
  forallb (fun c => negb (is_decimal c)) w = true.
Proof.
  intros Hp Hw. induction Hw as [|p c pat w Hpc _ IH]; [reflexivity|].
  simpl in *. apply andb_prop in Hp as [Hp1 Hp2].
  now rewrite (ci_letter_not_decimal _ _ Hp1 Hpc), IH.
Qed.

Lemma run_space_not_decimal w :
  run isspace w -> forallb (fun c => negb (is_decimal c)) w = true.
Proof.
  intros [_ H]. rewrite forallb_forall in *. intros c Hc.
  now rewrite (space_not_decimal _ (H c Hc)).
Qed.

Lemma ci_word_length pat w : ci_word pat w -> length w = length pat.
Proof. intros H. symmetry. exact (Forall2_length H). Qed.

(** No match of the first pattern starts before the word [line] of a
    text that holds no digit before it. *)
Lemma no_line_column_before p2 d tail :
  p2 <> [] ->
  forallb (fun c => negb (is_decimal c)) p2 = true ->
  is_decimal d = true ->
  match_line_column (p2 ++ py "line " ++ d :: tail) = None.
Proof.
  intros Hne Hp2 Hd.
  destruct (match_line_column _) as [[g1 g2]|] eqn:E; [exfalso|reflexivity].
  apply match_line_column_sound in E as (x & post & E & Hx).
  destruct Hx as (l & w1 & w2 & c & w3 & -> & Hl & H1 & H2 & _).
  destruct H2 as [Hg1 Hg1d]. destruct g1 as [|dg g1]; [easy|].
  simpl in Hg1d. apply andb_prop in Hg1d as [Hdg _].
  assert (Hab : p2 ++ py "line " = l ++ w1).
  { apply (first_decimal_unique _ _ d dg tail
             (g1 ++ w2 ++ c ++ w3 ++ g2 ++ post)); try assumption.
    - rewrite forallb_app, Hp2. reflexivity.
    - rewrite forallb_app, (ci_word_not_decimal (py "line") l),
        (run_space_not_decimal w1); auto.
    - rewrite <- !app_assoc in E. rewrite <- !app_assoc. exact E. }
  apply (f_equal (@rev char)) in Hab. rewrite !rev_app_distr in Hab.
  pose proof (ci_word_length _ _ Hl) as Hlen.
  destruct H1 as [Hw1 Hw1s].
  assert (Hrev : forallb isspace (rev w1) = true).
  { rewrite forallb_forall in *. intros y Hy. apply Hw1s.
    now apply in_rev. }
  destruct (rev w1) as [|a [|b rw]] eqn:Erw.
  - apply (f_equal (@rev char)) in Erw. rewrite rev_involutive in Erw.
    now subst.
  - simpl in Hab. injection Hab as _ Hab.
    apply (f_equal (@length char)) in Hab.
    rewrite length_rev, Hlen in Hab. simpl in Hab.
    rewrite length_rev in Hab. destruct p2; [easy | simpl in Hab; lia].
  - simpl in Hab. injection Hab as _ Hb _. subst b.
    simpl in Hrev. now rewrite andb_false_r in Hrev.
Qed.

Lemma match_char_needs_paren c s : c <> LPAREN -> match_char (c :: s) = None.
Proof.
  intros H. unfold match_char.
  change (py "(char") with (LPAREN :: py "char"). cbn [match_literal].
  replace (ci_match LPAREN c) with false; [reflexivity|].
  unfold ci_match. apply N.eqb_neq in H. now rewrite H.
Qed.

Lemma plain_line_column_text n m :
  run ascii_digit n -> run ascii_digit m ->
  line_column_text (py "line " ++ n ++ py " column " ++ m) n m.
Proof.
  intros Hn%ascii_run_decimal Hm%ascii_run_decimal.
  exists (py "line"), [SPACE], [SPACE], (py "column"), [SPACE].
  split; [reflexivity|].
  auto 10 using ci_word_refl, run_one.
Qed.

Lemma plain_char_text k :
  run ascii_digit k -> char_text (py "(char " ++ k ++ py ")") k.
Proof.
  intros Hk%ascii_run_decimal.
  exists (py "(char"), [SPACE]. split; [reflexivity|].
  auto using ci_word_refl, run_one.
Qed.

Lemma re_search_skip_chars {A} (f : str -> option A) (ok : char -> bool)
    pre post :
  (forall c s, ok c = true -> f (c :: s) = None) ->
  forallb ok pre = true ->
  re_search f (pre ++ post) = re_search f post.
Proof.
  intros Hf Hpre. apply re_search_skip. intros p1 [|c p2] -> Hne; [easy|].
  rewrite forallb_app in Hpre. apply andb_prop in Hpre as [_ Hp2].
  simpl in Hp2. apply andb_prop in Hp2 as [Hc _]. now apply Hf.
Qed.

Lemma description_char_split text :
  forallb description_char text = true ->
  forallb (fun c => negb (is_decimal c)) text = true
  /\ forallb (fun c : char => negb (c =? LPAREN)%N) text = true.
Proof.
  induction text as [|c text IH]; simpl; [easy|].
  unfold description_char at 1.
  intros [[H1 H2]%andb_prop H]%andb_prop.
  destruct (IH H) as [IH1 IH2]. now rewrite H1, H2, IH1, IH2.
Qed.

Lemma ascii_digits_no_paren w :
  run ascii_digit w -> forallb (fun c : char => negb (c =? LPAREN)%N) w = true.
Proof.
  intros [_ H]. rewrite forallb_forall in *. intros c Hc.
  specialize (H c Hc). unfold ascii_digit, between in H.
  apply andb_prop in H as [H _]. apply N.leb_le in H.
  apply negb_true_iff, N.eqb_neq. unfold LPAREN. lia.
Qed.

(** The error of a message of the standard form. *)
Lemma value_error_info_standard text line column offset :
  forallb description_char text = true ->
  run ascii_digit line -> run ascii_digit column ->
  run ascii_digit offset ->
  value_error_info (standard_message text line column offset)
  = ErrorInfo (standard_message text line column offset)
      (Some (py_int line)) (Some (py_int column)) (Some (py_int offset)).
Proof.
  intros Htext Hl Hc Ho.
  destruct (description_char_split _ Htext) as [Hnd Hnp].
  assert (H1 : re_search match_line_column
                 (standard_message text line column offset)
               = Some (line, column)).
  { change (standard_message text line column offset)
      with (text ++ py ": "
            ++ (py "line " ++ line ++ py " column " ++ column
                ++ py " (char " ++ offset ++ py ")")).
    rewrite app_assoc, re_search_skip.
    - apply re_search_here.
      replace (py "line " ++ line ++ py " column " ++ column
               ++ py " (char " ++ offset ++ py ")")
        with ((py "line " ++ line ++ py " column " ++ column)
              ++ py " (char " ++ offset ++ py ")")
        by now rewrite <- !app_assoc.
      apply match_line_column_whole;
        [now apply plain_line_column_text | reflexivity].
    - intros p1 p2 E Hne.
      assert (Hp2 : forallb (fun c => negb (is_decimal c)) p2 = true).
      { assert (Hpre : forallb (fun c => negb (is_decimal c))
                         (text ++ py ": ") = true)
          by (rewrite forallb_app, Hnd; reflexivity).
        rewrite E, forallb_app in Hpre. now apply andb_prop in Hpre. }
      destruct Hl as [Hlne Hld]. destruct line as [|d line]; [easy|].
      simpl in Hld. apply andb_prop in Hld as [Hd _].
      apply ascii_digit_decimal in Hd.
      now apply (no_line_column_before p2 d). }
  assert (H2 : re_search match_char
                 (standard_message text line column offset)
               = Some offset).
  { change (standard_message text line column offset)
      with (text ++ py ": line " ++ line ++ py " column " ++ column
            ++ py " " ++ (py "(char " ++ offset ++ py ")")).
    replace (text ++ py ": line " ++ line ++ py " column " ++ column
             ++ py " " ++ (py "(char " ++ offset ++ py ")"))
      with ((text ++ py ": line " ++ line ++ py " column " ++ column
             ++ py " ")
            ++ (py "(char " ++ offset ++ py ")") ++ [])
      by now rewrite app_nil_r, <- !app_assoc.
    rewrite (re_search_skip_chars match_char
               (fun c : char => negb (c =? LPAREN)%N)).
    - apply re_search_here, match_char_complete.
      now apply plain_char_text.
    - intros c s Hcs. apply match_char_needs_paren.
      now apply N.eqb_neq, negb_true_iff.
    - rewrite !forallb_app, Hnp, (ascii_digits_no_paren _ Hl),
        (ascii_digits_no_paren _ Hc). reflexivity. }
  unfold value_error_info. now rewrite H1, H2.
Qed.

(** X12. For a message of the standard form -- a description without
    digits and parentheses, then [: line X column Y (char Z)] with
    decimal numbers -- the error carries exactly X, Y and Z as line,
    column and offset. *)
Theorem standard_message_positions (json_loads : str -> loads_outcome)
    (raw text line column offset : str) :
  forallb description_char text = true ->
  run ascii_digit line -> run ascii_digit column ->
  run ascii_digit offset ->
  json_loads (_strip_json_comments raw)
  = RaisedValueError (standard_message text line column offset) ->
  _format_json_with_comments json_loads raw
  = (raw,
     Some (ErrorInfo (standard_message text line column offset)
             (Some (py_int line)) (Some (py_int column))
             (Some (py_int offset)))).
Proof.
  intros Htext Hl Hc Ho H. unfold _format_json_with_comments.
  now rewrite H, value_error_info_standard.
Qed.

(** The message of the validator for the text [{]. *)
Lemma standard_message_positions_witness :
  _format_json_with_comments example_loads (py "{")
  = (py "{",
     Some (ErrorInfo
             (standard_message
                (py "Expecting property name enclosed in double quotes")
                (py "1") (py "2") (py "1"))
             (Some (py_int (py "1"))) (Some (py_int (py "2")))
             (Some (py_int (py "1"))))).
Proof.
  apply (standard_message_positions example_loads (py "{")
           (py "Expecting property name enclosed in double quotes")
           (py "1") (py "2") (py "1"));
    try reflexivity; split; (discriminate || reflexivity).
Defined.

(** ** The text of the phantom *)

Lemma replace_char_app old new x y :
  replace_char old new (x ++ y)
  = replace_char old new x ++ replace_char old new y.
Proof. apply flat_map_app. Qed.

Lemma replace_char_flat_map old new (f : char -> str) : forall s,
  replace_char old new (flat_map f s)
  = flat_map (fun c => replace_char old new (f c)) s.
Proof.
  induction s as [|c s IH]; [reflexivity|].
  cbn [flat_map]. now rewrite replace_char_app, IH.
Qed.

Lemma escape_image_steps c :
  replace_char AMPERSAND (py "&amp;")
    (replace_char GREATER (py "&gt;")
       (if (c =? LESS)%N then py "&lt;" else [c]))
  = escape_image c.
Proof.
  unfold escape_image.
  destruct (N.eqb_spec c LESS) as [->|H1]; [reflexivity|].
  cbn [replace_char flat_map]. rewrite app_nil_r.
  destruct (N.eqb_spec c GREATER) as [->|H2]; [reflexivity|].
  cbn [replace_char flat_map]. rewrite app_nil_r.
  now destruct (c =? AMPERSAND)%N.
Qed.

Lemma phantom_text_images s : phantom_text s = flat_map escape_image s.
Proof.
  unfold phantom_text. unfold replace_char at 3.
  rewrite !replace_char_flat_map.
  apply flat_map_ext. intros c. apply escape_image_steps.
Qed.

Lemma escape_image_safe c :
  existsb (fun x : char => (x =? LESS)%N || (x =? GREATER)%N) (escape_image c)
  = false.
Proof.
  unfold escape_image.
  destruct (N.eqb_spec c LESS); [reflexivity|].
  destruct (N.eqb_spec c GREATER); [reflexivity|].
  destruct (N.eqb_spec c AMPERSAND); [reflexivity|].
  cbn [existsb]. rewrite orb_false_r.
  apply orb_false_iff; split; now apply N.eqb_neq.
Qed.

(** X14. The three replacements that prepare the error message for the
    phantom act as one pass over the message in which < becomes
    [&amp;lt;], > becomes [&amp;gt;] and & becomes [&amp;] (the ampersand
    is replaced last, so the entities of < and > are escaped once more),
    and the result holds no < and no >. *)
Theorem phantom_text_escaped (error_message : str) :
  phantom_text error_message = flat_map escape_image error_message
  /\ existsb (fun x : char => (x =? LESS)%N || (x =? GREATER)%N)
       (phantom_text error_message) = false.
Proof.
  split; [apply phantom_text_images|].
  rewrite phantom_text_images.
  induction error_message as [|c s IH]; [reflexivity|].
  cbn [flat_map]. now rewrite existsb_app, escape_image_safe, IH.
Qed.

(** ** The line shown for an error *)

Lemma filter_none {A} (f : A -> bool) (l : list A) :
  forallb (fun x => negb (f x)) l = true -> filter f l = [].
Proof.
  induction l as [|x l IH]; simpl; [reflexivity|].
  intros [Hx Hl]%andb_prop. apply negb_true_iff in Hx. rewrite Hx. auto.
Qed.

(** X15. The line that is shown for an error at line [line_num] of the
    stripped text is never before that line and at most twice as far; it
    lies beyond the last line of the original text only if [line_num]
    itself does; and it is [line_num] itself when none of the first
    [line_num] lines of the original is a comment line. *)
Theorem original_line_num_bounds (original : str) (line_num : N) :
  (line_num <= original_line_num original line_num)%N
  /\ (original_line_num original line_num <= 2 * line_num)%N
  /\ (original_line_num original line_num
      <= N.max line_num (N.of_nat (length (splitlines original))))%N
  /\ (forallb (fun l => negb (is_comment_line l))
        (firstn (N.to_nat line_num) (splitlines original)) = true ->
      original_line_num original line_num = line_num).
Proof.
  unfold original_line_num.
  set (lines := firstn (N.to_nat line_num) (splitlines original)).
  assert (Hcount : (N.of_nat (length (filter is_comment_line lines))
                    <= line_num)%N).
  { pose proof (filter_length_le is_comment_line lines).
    pose proof (firstn_le_length (N.to_nat line_num) (splitlines original)).
    fold lines in H0. lia. }
  destruct (_ <=? _)%N; [|repeat split; lia].
  destruct (N.ltb_spec
              (N.of_nat (length (splitlines original)))
              (line_num + N.of_nat (length (filter is_comment_line lines))));
    repeat split; try lia; intros H0; try reflexivity;
    rewrite (filter_none _ _ H0); simpl; lia.
Qed.

(** ** Line comments and open strings as tokens *)

Lemma span_exact p : forall body rest,
  forallb p body = true -> stops p rest ->
  span p (body ++ rest) = (body, rest).
Proof.
  intros body rest Hb Hr.
  rewrite (span_greedy _ _ _ Hb), (span_stops _ _ Hr).
  simpl. now rewrite app_nil_r.
Qed.

Lemma next_token_line rest :
  next_token SLASH (SLASH :: rest)
  = let (body, r) := span (fun c => negb (is_eol c)) rest in
    (Token Kcomment (SLASH :: SLASH :: body), r).
Proof. reflexivity. Qed.

(** X13. A line comment is one token that ends before the line
    terminator: after //, a text without line feed and carriage return
    that is followed by one of them, or by the end of the input, becomes
    a single comment token, and the tokenizer goes on at the
    terminator. *)
Theorem line_comment_token (body rest : str) :
  forallb (fun c => negb (is_eol c)) body = true ->
  stops (fun c => negb (is_eol c)) rest ->
  _tokenize_json_with_comments (py "//" ++ body ++ rest)
  = Token Kcomment (py "//" ++ body) :: _tokenize_json_with_comments rest.
Proof.
  intros Hb Hr.
  change (py "//" ++ body ++ rest) with (SLASH :: SLASH :: body ++ rest).
  now rewrite tokenize_cons, next_token_line, (span_exact _ _ _ Hb Hr).
Qed.

(** A comment that holds a quote, a brace and a block-comment opener,
    before a line feed. *)
Lemma line_comment_token_witness :
  _tokenize_json_with_comments (py "//" ++ py " it's { /* " ++ LF :: py "1")
  = Token Kcomment (py "//" ++ py " it's { /* ")
    :: _tokenize_json_with_comments (LF :: py "1").
Proof.
  apply (line_comment_token (py " it's { /* ") (LF :: py "1"));
    reflexivity.
Defined.

Lemma scan_string_open d body tail :
  d <> BACKSLASH -> string_body d body ->
  tail = [] \/ tail = [BACKSLASH] ->
  scan_string d false (body ++ tail) = (body ++ tail, []).
Proof.
  intros Hd Hb Ht.
  induction Hb as [|c body Hc1 Hc2 Hb IH|c body Hb IH]; simpl.
  - destruct Ht as [-> | ->]; reflexivity.
  - apply N.eqb_neq in Hc1, Hc2. now rewrite Hc1, Hc2, IH.
  - now rewrite IH.
Qed.

Lemma strip_string_open d body tail :
  d <> BACKSLASH -> string_body d body ->
  tail = [] \/ tail = [BACKSLASH] ->
  strip_string [d] false (body ++ tail) = body ++ tail.
Proof.
  intros Hd Hb Ht. rewrite strip_string_scan.
  rewrite (scan_string_open _ _ _ Hd Hb Ht). apply app_nil_r.
Qed.

(** X16. A string that is never closed runs to the end of the input: a
    quote followed by ordinary characters and escape pairs (and possibly
    one last backslash), with no closing quote, is a single string token,
    and the stripper returns it unchanged -- nothing after the opening
    quote is taken for a comment or for punctuation. *)
Theorem open_string (delim : char) (body tail : str) :
  is_quote delim = true ->
  string_body delim body ->
  tail = [] \/ tail = [BACKSLASH] ->
  _tokenize_json_with_comments (delim :: body ++ tail)
  = [Token Kstring (delim :: body ++ tail)]
  /\ _strip_json_comments (delim :: body ++ tail) = delim :: body ++ tail.
Proof.
  intros Hq Hb Ht. pose proof (is_quote_not_backslash _ Hq) as Hd. split.
  - rewrite tokenize_cons. unfold next_token.
    rewrite (is_quote_not_space _ Hq), Hq.
    now rewrite (scan_string_open _ _ _ Hd Hb Ht).
  - change (strip_normal [] (delim :: body ++ tail)
            = delim :: body ++ tail).
    now rewrite strip_normal_cons, Hq, (strip_string_open _ _ _ Hd Hb Ht).
Qed.

(** An open string with a comment opener, a brace and an escaped quote. *)
Lemma open_string_witness :
  _tokenize_json_with_comments (SQUOTE :: py "a // b } \' c" ++ [])
  = [Token Kstring (SQUOTE :: py "a // b } \' c" ++ [])]
  /\ _strip_json_comments (SQUOTE :: py "a // b } \' c" ++ [])
     = SQUOTE :: py "a // b } \' c" ++ [].
Proof.
  apply (open_string SQUOTE (py "a // b } \' c") []).
  - reflexivity.
  - cbv [py String.list_ascii_of_string map].
    repeat first
      [ apply body_nil
      | apply body_escape
      | apply body_char; [discriminate | discriminate |] ].
  - now left.
Defined.

(** An empty object at the start of the text. *)
Lemma open_close_layout_witness :
  concat
    (pieces
       (print_punct [RBRACE]
          (print_punct [LBRACE] {| pieces := []; indent := 0 |})))
  = concat (pieces {| pieces := []; indent := 0 |})
    ++ (if str_eqb
             (last_non_space_char
                (pieces {| pieces := []; indent := 0 |})) [COLON]
        then [SPACE] else [])
    ++ [LBRACE] ++ [LF]
    ++ spaces ((indent {| pieces := []; indent := 0 |} + 1) * indent_step)
    ++ [RBRACE]
  /\ indent
       (print_punct [RBRACE]
          (print_punct [LBRACE] {| pieces := []; indent := 0 |}))
     = indent {| pieces := []; indent := 0 |}.
Proof.
  apply (open_close_layout {| pieces := []; indent := 0 |} LBRACE RBRACE);
    now left.
Defined.

(** A closed comment before a number, and an open one. *)
Lemma block_comment_tokens_witness :
  _tokenize_json_with_comments (py "/*" ++ py " a * b " ++ py "*/" ++ py "1")
  = Token Kcomment (py "/*" ++ py " a * b " ++ py "*/")
    :: _tokenize_json_with_comments (py "1")
  /\ _tokenize_json_with_comments (py "/*" ++ py " a * " ++ [STAR])
     = Token Kcomment (py "/*" ++ py " a * ")
       :: _tokenize_json_with_comments [STAR].
Proof.
  split.
  - apply (proj1 (block_comment_tokens (py " a * b ")) (py "1")).
    reflexivity.
  - apply (proj2 (block_comment_tokens (py " a * ")) STAR). reflexivity.
Defined.

(** ** The pieces and the text they make *)

Lemma reversed_chars_rev ps : reversed_chars ps = rev (concat ps).
Proof.
  unfold reversed_chars. induction ps as [|p ps IH]; [reflexivity|].
  cbn [rev concat]. rewrite map_app, concat_app, rev_app_distr.
  cbn [map concat]. rewrite app_nil_r. f_equal. exact IH.
Qed.

Lemma lstrip_app x y :
  lstrip (x ++ y)
  = match lstrip x with
    | [] => lstrip y
    | kept => kept ++ y
    end.
Proof.
  induction x as [|c x IH]; simpl; [now destruct (lstrip y)|].
  destruct (isspace c); [exact IH | reflexivity].
Qed.

Lemma rstrip_app a b :
  rstrip (a ++ b)
  = match rstrip b with
    | [] => rstrip a
    | kept => a ++ kept
    end.
Proof.
  unfold rstrip. rewrite rev_app_distr, lstrip_app.
  destruct (lstrip (rev b)) as [|c k] eqn:E; [reflexivity|].
  rewrite rev_app_distr, rev_involutive.
  destruct (rev (c :: k)) eqn:E'; [|reflexivity].
  apply (f_equal (@length char)) in E'. rewrite length_rev in E'.
  discriminate.
Qed.

Lemma lstrip_suffix s : exists w, s = w ++ lstrip s.
Proof.
  induction s as [|c s [w IH]]; [now exists []|]. simpl.
  destruct (isspace c); [|now exists []].
  exists (c :: w). simpl. now f_equal.
Qed.

Lemma rstrip_full s : length (rstrip s) = length s -> rstrip s = s.
Proof.
  unfold rstrip. rewrite length_rev. intros H.
  destruct (lstrip_suffix (rev s)) as [w Hw].
  assert (w = []) as ->.
  { apply (f_equal (@length char)) in Hw.
    rewrite length_app, length_rev in Hw.
    destruct w; [reflexivity | cbn [length] in Hw; lia]. }
  simpl in Hw. now rewrite <- Hw, rev_involutive.
Qed.

Lemma strip_trailing_rev_rstrip : forall rps,
  concat (rev (strip_trailing_rev rps)) = rstrip (concat (rev rps)).
Proof.
  induction rps as [|part rest IH]; [reflexivity|].
  cbn [strip_trailing_rev rev].
  rewrite (concat_app (rev rest)). cbn [concat].
  rewrite app_nil_r, rstrip_app.
  destruct (rstrip part) as [|c kept] eqn:E; [exact IH|].
  destruct (Nat.eqb_spec (length (c :: kept)) (length part)) as [H|H].
  - rewrite <- E in H. apply rstrip_full in H. rewrite E in H.
    cbn [rev]. rewrite concat_app. cbn [concat].
    now rewrite app_nil_r, H.
  - cbn [rev]. rewrite concat_app. cbn [concat]. now rewrite app_nil_r.
Qed.

Lemma buffer_strip_trailing st :
  buffer (strip_trailing_whitespace st) = rstrip (buffer st).
Proof.
  unfold buffer, strip_trailing_whitespace; simpl.
  now rewrite strip_trailing_rev_rstrip, rev_involutive.
Qed.

(** X17. Removing the trailing whitespace piece by piece is removing it
    from the text the pieces make: the text after
    [strip_trailing_whitespace] is the text before it without its
    trailing whitespace, however the text is cut into pieces. *)
Theorem strip_trailing_whitespace_is_rstrip (st : printer) :
  concat (pieces (strip_trailing_whitespace st))
  = rstrip (concat (pieces st))
  /\ indent (strip_trailing_whitespace st) = indent st.
Proof. split; [apply buffer_strip_trailing | reflexivity]. Qed.

Lemma last_non_space_char_of_text ps :
  nonspace (concat ps) <> [] ->
  exists c, last_non_space_char ps = [c] /\ isspace c = false.
Proof.
  intros H. unfold last_non_space_char. rewrite reversed_chars_rev.
  pose proof (lstrip_head (rev (concat ps))) as Hhead.
  pose proof (nonspace_lstrip (rev (concat ps))) as Hns.
  destruct (lstrip (rev (concat ps))) as [|c k]; [|now exists c].
  exfalso. apply H. unfold nonspace in *. rewrite filter_rev in Hns.
  simpl in Hns. apply (f_equal (@rev char)) in Hns.
  now rewrite rev_involutive in Hns.
Qed.

(** X18. A line comment that comes after something already written is
    attached to the end of the current line: the whitespace written last
    is removed, then come one space, the comment without surrounding
    whitespace, a line break and the current indentation. *)
Theorem trailing_line_comment (val : str) (st : printer) :
  startswith val (py "//") = true ->
  forallb (fun c => negb (is_eol c)) val = true ->
  nonspace (buffer st) <> [] ->
  buffer (print_comment val st)
  = rstrip (buffer st) ++ [SPACE] ++ strip val ++ [LF]
    ++ spaces (indent st * indent_step)
  /\ indent (print_comment val st) = indent st.
Proof.
  intros Hval Heol Hbuf.
  destruct (last_non_space_char_of_text _ Hbuf) as (c & Hc & Hcs).
  assert (Hls : lstrip val = val).
  { destruct val as [|x val]; [discriminate|].
    change (py "//") with [SLASH; SLASH] in Hval. cbn [startswith] in Hval.
    apply andb_prop in Hval as [Hx _]. apply N.eqb_eq in Hx.
    subst x. reflexivity. }
  assert (Hnl : char_in LF val || char_in CR val = false).
  { clear - Heol. induction val as [|x val IH]; [reflexivity|].
    simpl in Heol. apply andb_prop in Heol as [Hx Hv].
    apply negb_true_iff in Hx. unfold is_eol in Hx.
    apply orb_false_elim in Hx as [H1 H2]. specialize (IH Hv).
    apply orb_false_elim in IH as [I1 I2].
    unfold char_in in *. cbn [existsb].
    now rewrite (N.eqb_sym LF), (N.eqb_sym CR), H1, H2, I1, I2. }
  assert (Hprev : str_eqb [c] [] || str_eqb [c] [LF] = false).
  { cbn [str_eqb orb]. rewrite andb_true_r.
    destruct (N.eqb_spec c LF) as [->|]; [discriminate | reflexivity]. }
  unfold print_comment. cbv zeta. rewrite Hls, Hval, Hnl, Hc, Hprev.
  cbn [negb andb]. unfold write_newline_and_indent.
  rewrite !buffer_write, buffer_strip_trailing, <- !app_assoc.
  split; reflexivity.
Qed.

(** The comment [// one] after [1,] and the line break written after
    the comma. *)
Lemma trailing_line_comment_witness :
  buffer
    (print_comment (py "// one ")
       {| pieces := [py "1"; py ","; [LF]; py "    "]; indent := 1 |})
  = rstrip
      (buffer {| pieces := [py "1"; py ","; [LF]; py "    "]; indent := 1 |})
    ++ [SPACE] ++ strip (py "// one ") ++ [LF]
    ++ spaces
         (indent {| pieces := [py "1"; py ","; [LF]; py "    "];
                    indent := 1 |} * indent_step)
  /\ indent
       (print_comment (py "// one ")
          {| pieces := [py "1"; py ","; [LF]; py "    "]; indent := 1 |})
     = indent {| pieces := [py "1"; py ","; [LF]; py "    "]; indent := 1 |}.
Proof.
  apply (trailing_line_comment (py "// one ")
           {| pieces := [py "1"; py ","; [LF]; py "    "]; indent := 1 |});
    try reflexivity. discriminate.
Defined.

(** ** The layout keeps the tokens *)

Lemma rstrip_ws w : forallb isspace w = true -> rstrip w = [].
Proof.
  induction w as [|c w IH]; [reflexivity|]. cbn [forallb].
  intros [Hc Hw]%andb_prop. change (c :: w) with ([c] ++ w).
  rewrite rstrip_app, (IH Hw). unfold rstrip. cbn [rev app lstrip].
  now rewrite Hc.
Qed.

Lemma newline_ws n : forallb isspace ([LF] ++ spaces n) = true.
Proof. exact (spaces_are_space n). Qed.

Lemma laid_out_ws_r : forall tokens text w,
  laid_out tokens text -> forallb isspace w = true ->
  laid_out tokens (text ++ w).
Proof.
  induction tokens as [|t tokens IH]; intros text w H Hw.
  - cbn [laid_out] in *. now rewrite forallb_app, H, Hw.
  - destruct H as (gap & image & rest & -> & Hg & Hs & Hl).
    exists gap, image, (rest ++ w). rewrite <- !app_assoc.
    repeat split; auto.
Qed.

Lemma laid_out_ws_l tokens text w :
  forallb isspace w = true -> laid_out tokens text ->
  laid_out tokens (w ++ text).
Proof.
  intros Hw H. destruct tokens as [|t tokens].
  - cbn [laid_out] in *. now rewrite forallb_app, H, Hw.
  - destruct H as (gap & image & rest & -> & Hg & Hs & Hl).
    exists (w ++ gap), image, rest. rewrite <- !app_assoc.
    repeat split; auto. now rewrite forallb_app, Hw, Hg.
Qed.

Lemma laid_out_snoc : forall tokens text t image,
  laid_out tokens text -> shown t image ->
  laid_out (tokens ++ [t]) (text ++ image).
Proof.
  induction tokens as [|t0 tokens IH]; intros text t image H Hs.
  - exists text, image, []. rewrite app_nil_r. repeat split; auto.
  - destruct H as (gap & image0 & rest & -> & Hg & Hs0 & Hl).
    exists gap, image0, (rest ++ image). rewrite <- !app_assoc.
    repeat split; auto.
Qed.

Lemma ends_solid_rstrip t :
  ends_solid t = true -> rstrip (value t) = value t /\ value t <> [].
Proof.
  unfold ends_solid, rstrip. destruct (rev (value t)) as [|c r] eqn:E;
    [discriminate|].
  intros Hc%negb_true_iff. cbn [lstrip]. rewrite Hc, <- E.
  split; [apply rev_involutive|]. intros H. now rewrite H in E.
Qed.

Lemma shown_rstrip t image :
  firm t = true -> shown t image ->
  shown t (rstrip image) /\ (rstrip image = [] -> shown t []).
Proof.
  unfold firm, shown.
  destruct (kind t); intros H Hs;
    try (destruct (ends_solid_rstrip t H) as [H1 H2]; subst image;
         rewrite H1; split; [reflexivity | contradiction]).
  split; [now rewrite nonspace_rstrip|].
  intros E. now rewrite <- Hs, <- (nonspace_rstrip image), E.
Qed.

Lemma laid_out_rstrip : forall tokens text,
  forallb firm tokens = true -> laid_out tokens text ->
  laid_out tokens (rstrip text).
Proof.
  induction tokens as [|t tokens IH]; intros text Hf H.
  - cbn [laid_out] in *. now rewrite (rstrip_ws _ H).
  - cbn [forallb] in Hf. apply andb_prop in Hf as [Ht Hts].
    destruct H as (gap & image & rest & -> & Hg & Hs & Hl).
    specialize (IH rest Hts Hl).
    destruct (shown_rstrip t image Ht Hs) as [S1 S2].
    rewrite rstrip_app, (rstrip_app image rest).
    destruct (rstrip rest) as [|c k] eqn:E.
    + destruct (rstrip image) as [|c0 k0] eqn:E2.
      * rewrite (rstrip_ws _ Hg). exists [], [], [].
        repeat split; auto.
      * exists gap, (c0 :: k0), []. rewrite app_nil_r.
        repeat split; auto.
    + assert (E3 : match image ++ c :: k with
                   | [] => rstrip gap
                   | kept => gap ++ kept
                   end = gap ++ image ++ c :: k)
        by now destruct image.
      rewrite E3. exists gap, image, (c :: k). repeat split; auto.
Qed.

(** What each branch of the printer does to the text written so far. *)
Lemma buffer_newline st :
  buffer (write_newline_and_indent st)
  = buffer st ++ [LF] ++ spaces (indent st * indent_step).
Proof.
  unfold write_newline_and_indent.
  now rewrite !buffer_write, <- app_assoc.
Qed.

Lemma print_value_grows val st :
  exists gap,
    forallb isspace gap = true
    /\ buffer (print_value val st) = buffer st ++ gap ++ val.
Proof.
  unfold print_value. rewrite buffer_write.
  destruct (negb (at_line_start (pieces st)));
    [|exists []; now split].
  destruct (_ && _); [|exists []; now split].
  exists [SPACE]. rewrite buffer_write, <- app_assoc. now split.
Qed.

Lemma print_punct_grows c st :
  char_in c punctuation = true ->
  exists gap tail,
    forallb isspace gap = true /\ forallb isspace tail = true
    /\ buffer (print_punct [c] st) = buffer st ++ gap ++ [c] ++ tail.
Proof.
  intros H. apply punctuation_cases in H.
  set (st0 := if str_eqb (last_non_space_char (pieces st)) [COLON]
              then write [SPACE] st else st).
  assert (H0 : exists gap, forallb isspace gap = true
                           /\ buffer st0 = buffer st ++ gap).
  { unfold st0. destruct (str_eqb _ _).
    - exists [SPACE]. now rewrite buffer_write.
    - exists []. now rewrite app_nil_r. }
  set (st1 := {| pieces := pieces st;
                 indent := Nat.max (indent st - 1) 0 |}).
  assert (Hopen : c = LBRACE \/ c = LBRACKET ->
            print_punct [c] st
            = write_newline_and_indent
                {| pieces := pieces (write [c] st0);
                   indent := indent (write [c] st0) + 1 |})
    by (intros [-> | ->]; reflexivity).
  assert (Hclose : c = RBRACE \/ c = RBRACKET ->
            print_punct [c] st
            = if str_in (last_non_space_char (pieces st1)) (py "{[")
              then write [c] st1
              else write [c] (write_newline_and_indent st1))
    by (intros [-> | ->]; reflexivity).
  assert (Hbuf : forall x n,
            buffer {| pieces := pieces x; indent := n |} = buffer x)
    by reflexivity.
  assert (Ho : c = LBRACE \/ c = LBRACKET ->
            exists gap tail,
              forallb isspace gap = true /\ forallb isspace tail = true
              /\ buffer (print_punct [c] st)
                 = buffer st ++ gap ++ [c] ++ tail).
  { intros Hc. rewrite (Hopen Hc), buffer_newline, Hbuf, buffer_write.
    destruct H0 as (gap & Hg & ->).
    exists gap, ([LF] ++ spaces ((indent (write [c] st0) + 1) * indent_step)).
    rewrite <- !app_assoc. repeat split; auto. apply newline_ws. }
  assert (Hc : c = RBRACE \/ c = RBRACKET ->
            exists gap tail,
              forallb isspace gap = true /\ forallb isspace tail = true
              /\ buffer (print_punct [c] st)
                 = buffer st ++ gap ++ [c] ++ tail).
  { intros Hc. rewrite (Hclose Hc). destruct (str_in _ _).
    - exists [], []. rewrite buffer_write. repeat split; auto.
    - exists ([LF] ++ spaces (indent st1 * indent_step)), [].
      rewrite buffer_write, buffer_newline, <- !app_assoc.
      repeat split; auto. apply newline_ws. }
  destruct H as [H | [H | [H | [H | [-> | ->]]]]]; auto.
  - change (print_punct [COLON] st) with (write [COLON; SPACE] st).
    exists [], [SPACE]. rewrite buffer_write. repeat split; auto.
  - change (print_punct [COMMA] st)
      with (write_newline_and_indent (write [COMMA] st)).
    exists [], ([LF] ++ spaces (indent (write [COMMA] st) * indent_step)).
    rewrite buffer_newline, buffer_write, <- !app_assoc.
    repeat split; auto. apply newline_ws.
Qed.

Lemma write_lines_grows : forall lines first st,
  exists image,
    nonspace image = nonspace (concat lines)
    /\ buffer (write_lines first lines st) = buffer st ++ image.
Proof.
  induction lines as [|line lines IH]; intros first st; cbn [write_lines].
  - exists []. now rewrite app_nil_r.
  - cbv zeta.
    match goal with
    | |- context [write line ?x] => set (st1 := x)
    end.
    assert (H1 : exists gap, nonspace gap = []
                             /\ buffer st1 = buffer st ++ gap).
    { unfold st1. destruct first.
      - exists []. now rewrite app_nil_r.
      - exists (spaces (indent st * indent_step)).
        now rewrite buffer_write, nonspace_spaces. }
    destruct H1 as (gap & Hg & Hb).
    destruct (IH false (write line st1)) as (image & Hi & ->).
    exists (gap ++ line ++ image).
    rewrite buffer_write, Hb, <- !app_assoc. split; [|reflexivity].
    cbn [concat]. now rewrite !nonspace_app, Hg, Hi.
Qed.

Lemma print_comment_grows val st :
  exists base gap image tail,
    (base = buffer st \/ base = rstrip (buffer st))
    /\ forallb isspace gap = true /\ forallb isspace tail = true
    /\ nonspace image = nonspace val
    /\ buffer (print_comment val st) = base ++ gap ++ image ++ tail.
Proof.
  unfold print_comment. cbv zeta. destruct (_ && _ && _).
  - exists (rstrip (buffer st)), [SPACE], (strip val),
      ([LF] ++ spaces (indent st * indent_step)).
    rewrite buffer_newline, !buffer_write, buffer_strip_trailing,
      <- !app_assoc.
    repeat split; auto using nonspace_strip, newline_ws.
  - match goal with
    | |- context [write_lines true _ ?x] => set (st1 := x)
    end.
    assert (H1 : exists gap, forallb isspace gap = true
                             /\ buffer st1 = buffer st ++ gap).
    { unfold st1. destruct (_ || _).
      - exists ([LF] ++ spaces (indent st * indent_step)).
        split; [apply newline_ws | apply buffer_newline].
      - exists []. now rewrite app_nil_r. }
    destruct H1 as (gap & Hg & Hb).
    destruct (write_lines_grows (splitlines val) true st1)
      as (image & Hi & Hw).
    rewrite concat_splitlines in Hi.
    match goal with
    | |- context [if ?b then write [LF] _ else _] => destruct b
    end.
    + exists (buffer st), gap, image, [LF].
      rewrite buffer_write, Hw, Hb, <- !app_assoc. repeat split; auto.
    + exists (buffer st), gap, image, [].
      rewrite Hw, Hb, <- !app_assoc, app_nil_r. repeat split; auto.
Qed.

Lemma forallb_last (p : char -> bool) v c r :
  forallb p v = true -> rev v = c :: r -> p c = true.
Proof.
  intros H E. rewrite forallb_forall in H. apply H, in_rev.
  rewrite E. now left.
Qed.

Lemma shape_firm t :
  token_shape t = true -> string_ends_solid t = true ->
  kind t <> Kws -> firm t = true.
Proof.
  destruct t as [k v].
  unfold token_shape, string_ends_solid, firm, ends_solid. cbn [kind value].
  destruct k; intros Hs He Hk; try easy.
  - destruct v as [|c v]; [discriminate|].
    destruct (rev (c :: v)) as [|d r] eqn:E.
    + apply (f_equal (@length char)) in E. rewrite length_rev in E.
      discriminate.
    + pose proof (forallb_last _ _ _ _ Hs E) as Hd.
      unfold literal_char in Hd. apply negb_true_iff in Hd.
      apply orb_false_elim in Hd as [Hd _].
      apply orb_false_elim in Hd as [Hd _]. now rewrite Hd.
  - destruct v as [|c [|d v]]; try discriminate. cbn [rev app].
    now rewrite (punctuation_not_space _ Hs).
Qed.

Lemma print_token_laid_out done st t :
  token_shape t = true -> firm t = true ->
  forallb firm done = true -> laid_out done (buffer st) ->
  laid_out (done ++ [t]) (buffer (print_token st t)).
Proof.
  intros Hs Hf Hd Hl.
  assert (Hgrow : exists base gap image tail,
            (base = buffer st \/ base = rstrip (buffer st))
            /\ forallb isspace gap = true /\ forallb isspace tail = true
            /\ shown t image
            /\ buffer (print_token st t) = base ++ gap ++ image ++ tail).
  { destruct t as [k v]. unfold print_token, shown, token_shape in *.
    cbn [kind value] in *. destruct k.
    - destruct (print_value_grows v st) as (gap & Hg & ->).
      exists (buffer st), gap, v, []. rewrite app_nil_r.
      repeat split; auto.
    - destruct (print_value_grows v st) as (gap & Hg & ->).
      exists (buffer st), gap, v, []. rewrite app_nil_r.
      repeat split; auto.
    - destruct v as [|c [|d v]]; try discriminate.
      destruct (print_punct_grows c st Hs) as (gap & tail & Hg & Ht & ->).
      exists (buffer st), gap, [c], tail. repeat split; auto.
    - destruct (print_comment_grows v st)
        as (base & gap & image & tail & Hb & Hg & Ht & Hi & ->).
      exists base, gap, image, tail. repeat split; auto.
    - unfold firm, ends_solid in Hf. cbn [kind value] in Hf.
      destruct v as [|c v]; [discriminate|].
      destruct (rev (c :: v)) as [|d r] eqn:E; [discriminate|].
      apply negb_true_iff in Hf.
      now rewrite (forallb_last _ _ _ _ Hs E) in Hf. }
  destruct Hgrow as (base & gap & image & tail & Hb & Hg & Ht & Hi & ->).
  assert (Hbase : laid_out done base)
    by (destruct Hb as [-> | ->]; auto using laid_out_rstrip).
  rewrite !app_assoc. apply laid_out_ws_r; [|exact Ht].
  apply laid_out_snoc; [|exact Hi]. now apply laid_out_ws_r.
Qed.

Lemma print_tokens_laid_out : forall tokens done st,
  forallb token_shape tokens = true ->
  forallb string_ends_solid tokens = true ->
  forallb firm done = true -> laid_out done (buffer st) ->
  forallb firm (done ++ without_ws tokens) = true
  /\ laid_out (done ++ without_ws tokens)
       (buffer (fold_left print_token tokens st)).
Proof.
  induction tokens as [|t tokens IH]; intros done st Hs He Hd Hl.
  - cbn [without_ws filter fold_left]. now rewrite app_nil_r.
  - cbn [forallb] in Hs, He.
    apply andb_prop in Hs as [Hs Hss]. apply andb_prop in He as [He Hes].
    cbn [fold_left]. unfold without_ws. cbn [filter].
    fold (without_ws tokens).
    destruct (kind t) eqn:Ek;
      try (replace (print_token st t) with st
             by (unfold print_token; now rewrite Ek);
           now apply IH);
      (assert (Hf : firm t = true)
         by (apply shape_firm; auto; now rewrite Ek));
      change (done ++ t :: without_ws tokens)
        with (done ++ [t] ++ without_ws tokens);
      rewrite app_assoc;
      (apply (IH (done ++ [t]) (print_token st t) Hss Hes);
       [ rewrite forallb_app, Hd; cbn [forallb]; now rewrite Hf
       | now apply print_token_laid_out ]).
Qed.

Lemma print_laid_out (tokens : list _Token) (newline_at_end : bool) :
  forallb token_shape tokens = true ->
  forallb string_ends_solid tokens = true ->
  laid_out (without_ws tokens)
    (_pretty_print_tokens_with_comments tokens newline_at_end).
Proof.
  intros Hs He. unfold _pretty_print_tokens_with_comments. cbv zeta.
  destruct (print_tokens_laid_out tokens []
              {| pieces := []; indent := 0 |} Hs He eq_refl eq_refl)
    as [Hf Hl].
  cbn [app] in Hf, Hl. apply (laid_out_rstrip _ _ Hf) in Hl.
  destruct newline_at_end; [|exact Hl]. now apply laid_out_ws_r.
Qed.

(** X19. The printer changes nothing but whitespace around the tokens:
    for tokens of the shape the tokenizer gives them, no string among them
    ending with whitespace, the printed text is the tokens that are not
    whitespace, in their order, with whitespace and nothing else before,
    between and after them.  Strings, literals and punctuation appear as
    they are, whitespace inside a string included; a comment appears with
    all its characters that are not whitespace. *)
Theorem layout_keeps_tokens (tokens : list _Token)
    (newline_at_end : bool) :
  forallb token_shape tokens = true ->
  forallb string_ends_solid tokens = true ->
  laid_out (without_ws tokens)
    (_pretty_print_tokens_with_comments tokens newline_at_end).
Proof. apply print_laid_out. Qed.

(** The tokens of [[1, "a  b"] // c], with whitespace tokens between. *)
Lemma layout_keeps_tokens_witness :
  laid_out
    (without_ws
       (_tokenize_json_with_comments
          (py "[1,  " ++ [DQUOTE] ++ py "a  b" ++ [DQUOTE] ++ py "] // c")))
    (_pretty_print_tokens_with_comments
       (_tokenize_json_with_comments
          (py "[1,  " ++ [DQUOTE] ++ py "a  b" ++ [DQUOTE] ++ py "] // c"))
       true).
Proof.
  apply (layout_keeps_tokens
           (_tokenize_json_with_comments
              (py "[1,  " ++ [DQUOTE] ++ py "a  b" ++ [DQUOTE]
               ++ py "] // c")) true); reflexivity.
Defined.

Lemma laid_out_token_text : forall tokens,
  forallb token_shape tokens = true ->
  laid_out (without_ws tokens) (token_text tokens).
Proof.
  unfold token_text.
  induction tokens as [|t tokens IH]; [reflexivity|].
  cbn [forallb map concat]. intros [Hs Hss]%andb_prop.
  specialize (IH Hss). unfold without_ws. cbn [filter].
  fold (without_ws tokens).
  destruct t as [k v]. unfold token_shape in Hs. cbn [kind value] in *.
  destruct k;
    try (exists [], v, (concat (map value tokens));
         repeat split; auto; fail).
  apply laid_out_ws_l; [|exact IH]. now destruct v.
Qed.

(** X20. Whatever the validator says, the text that formatting returns is
    the tokens of the input that are not whitespace, in their order, with
    whitespace and nothing else before, between and after them, provided
    no string token of the input ends with whitespace (only a string that
    is not closed can).  So the whitespace inside every string is kept. *)
Theorem format_keeps_tokens (json_loads : str -> loads_outcome)
    (raw : str) :
  forallb string_ends_solid (_tokenize_json_with_comments raw) = true ->
  laid_out (without_ws (_tokenize_json_with_comments raw))
    (fst (_format_json_with_comments json_loads raw)).
Proof.
  intros He.
  assert (Hraw : laid_out (without_ws (_tokenize_json_with_comments raw))
                   raw).
  { pose proof (laid_out_token_text (_tokenize_json_with_comments raw)
                  (tokenize_loop_shape _ _)) as H.
    unfold _tokenize_json_with_comments in H at 2.
    now rewrite tokenize_loop_text in H by apply Nat.le_refl. }
  unfold _format_json_with_comments.
  destruct (json_loads _); cbn [fst]; try exact Hraw.
  apply print_laid_out; [apply tokenize_loop_shape | exact He].
Qed.

(** The text [{"a  b" :1} // c], taken as valid by the validator. *)
Lemma format_keeps_tokens_witness :
  laid_out
    (without_ws
       (_tokenize_json_with_comments
          ([LBRACE; DQUOTE] ++ py "a  b" ++ [DQUOTE] ++ py " :1} // c")))
    (fst (_format_json_with_comments (fun _ => Loaded)
            ([LBRACE; DQUOTE] ++ py "a  b" ++ [DQUOTE] ++ py " :1} // c"))).
Proof.
  apply (format_keeps_tokens (fun _ => Loaded)
           ([LBRACE; DQUOTE] ++ py "a  b" ++ [DQUOTE] ++ py " :1} // c")).
  reflexivity.
Defined.
